(** * Intersection observer of src/intersection-observer.js

    A shallow embedding of [getIntersectionChangeEntry] and of the
    [IntersectionObserver] class, with the properties of the visibility
    notification protocol they implement.

    Numbers are integers ([Z]): layout rectangles and millisecond time
    stamps.  JavaScript objects that are mutated in place (layout rectangles)
    live in a store indexed by references, so that aliasing is visible. *)

From stdpp Require Import gmap strings list sorting.
From Stdlib Require Import ZArith Lia.

Local Open Scope Z_scope.

(** ** Layout rectangles and the object store *)

(** A [LayoutRectDef] object.  [x] and [y] are absent ([None]) until some
    code assigns them. *)
Record LayoutRectDef : Type := LayoutRect {
  left : Z;
  top : Z;
  width : Z;
  height : Z;
  x : option Z;
  y : option Z
}.

#[global] Instance LayoutRectDef_eq_dec : EqDecision LayoutRectDef.
Proof. solve_decision. Defined.

Abbreviation Ref := positive.

(** How a JavaScript computation ends: normally with a value, or with a
    thrown error. *)
Inductive Completion (A : Type) : Type :=
| Normal (a : A)
| Throw (message : string).
Arguments Normal {A} a.
Arguments Throw {A} message.

(** Computations over the object store. *)
Definition JS (A : Type) : Type := gmap positive LayoutRectDef -> Completion A * gmap positive LayoutRectDef.

#[global] Instance JS_ret : MRet JS := fun A a σ => (Normal a, σ).
#[global] Instance JS_bind : MBind JS := fun A B f m σ =>
  match m σ with
  | (Normal a, σ') => f a σ'
  | (Throw e, σ') => (Throw e, σ')
  end.

Definition throw {A : Type} (message : string) : JS A :=
  fun σ => (Throw message, σ).

(** Reading a property of an object; a dangling reference is outside the
    typed interface ([!LayoutRectDef]) and ends in a TypeError. *)
Definition get {A : Type} (field : LayoutRectDef -> A) (r : Ref) : JS A :=
  fun σ => match σ !! r with
           | Some o => (Normal (field o), σ)
           | None => (Throw "TypeError", σ)
           end.

(** Reading a numeric property that may be absent. *)
Definition getNumber (field : LayoutRectDef -> option Z) (r : Ref) : JS Z :=
  v ← get field r;
  match v with
  | Some n => mret n
  | None => throw "TypeError"
  end.

Definition withX (v : Z) (o : LayoutRectDef) : LayoutRectDef :=
  {| left := left o; top := top o; width := width o; height := height o;
     x := Some v; y := y o |}.

Definition withY (v : Z) (o : LayoutRectDef) : LayoutRectDef :=
  {| left := left o; top := top o; width := width o; height := height o;
     x := x o; y := Some v |}.

(** Assignment to a property: the object is updated in place. *)
Definition set (upd : LayoutRectDef -> LayoutRectDef) (r : Ref) : JS unit :=
  fun σ => match σ !! r with
           | Some o => (Normal tt, <[r := upd o]> σ)
           | None => (Throw "TypeError", σ)
           end.

(** A new object at a reference that is not in use. *)
Definition alloc (o : LayoutRectDef) : JS Ref :=
  fun σ => let r := fresh (dom σ) in (Normal r, <[r := o]> σ).

(** Modelled from the spec: [dev.assert(cond, message)] of log.js, which is
    not part of the sources: a failed assertion is fatal, here an error
    thrown with the message. *)
Definition dev_assert (cond : bool) (message : string) : JS unit :=
  if cond then mret tt else throw message.

(** Modelled from the spec: [layoutRectLtwh] of layout-rect.js, which is not
    part of the sources: a new rectangle from left, top, width and height. *)
Definition layoutRectLtwh (l t w h : Z) : JS Ref :=
  alloc {| left := l; top := t; width := w; height := h; x := None; y := None |}.

(** Modelled from the spec: [moveLayoutRect] of layout-rect.js, which is not
    part of the sources: the rectangle translated by [(dx, dy)], as a pure
    utility that leaves its argument alone. *)
Definition translate (o : LayoutRectDef) (dx dy : Z) : LayoutRectDef :=
  {| left := left o + dx; top := top o + dy; width := width o; height := height o;
     x := None; y := None |}.

Definition moveLayoutRect (rect : Ref) (dx dy : Z) : JS Ref :=
  o ← get id rect;
  layoutRectLtwh (left o + dx) (top o + dy) (width o) (height o).

(** Modelled from the spec: [rectIntersection] of layout-rect.js, which is
    not part of the sources: the geometric intersection of two rectangles, or
    [null] ([None]) when they do not overlap. *)
Definition intersect (a b : LayoutRectDef) : option LayoutRectDef :=
  let x0 := Z.max (left a) (left b) in
  let x1 := Z.min (left a + width a) (left b + width b) in
  let y0 := Z.max (top a) (top b) in
  let y1 := Z.min (top a + height a) (top b + height b) in
  if (x0 <=? x1) && (y0 <=? y1)
  then Some {| left := x0; top := y0; width := x1 - x0; height := y1 - y0;
               x := None; y := None |}
  else None.

Definition rectIntersection (a b : Ref) : JS (option Ref) :=
  ra ← get id a;
  rb ← get id b;
  match intersect ra rb with
  | Some o => r ← layoutRectLtwh (left o) (top o) (width o) (height o); mret (Some r)
  | None => mret None
  end.

(** ** The change entry *)

Record IntersectionObserverEntry : Type := Entry {
  time : Z;
  rootBounds : positive;
  boundingClientRect : positive;
  intersectionRect : positive
}.

#[global] Instance IntersectionObserverEntry_eq_dec :
  EqDecision IntersectionObserverEntry.
Proof. solve_decision. Defined.

(** [getIntersectionChangeEntry(measureTime, rootBounds, elementLayoutBox)],
    lines 36-65. *)
Definition getIntersectionChangeEntry
    (measureTime : Z) (rootBounds elementLayoutBox : Ref)
  : JS IntersectionObserverEntry :=
  (* rootBounds.x = rootBounds.left; rootBounds.y = rootBounds.top; *)
  l ← get left rootBounds;
  set (withX l) rootBounds;;
  t ← get top rootBounds;
  set (withY t) rootBounds;;
  (* moveLayoutRect(elementLayoutBox, -1 * rootBounds.x, -1 * rootBounds.y) *)
  rx ← getNumber x rootBounds;
  ry ← getNumber y rootBounds;
  boundingClientRect ← moveLayoutRect elementLayoutBox (-1 * rx) (-1 * ry);
  w ← get width boundingClientRect;
  h ← get height boundingClientRect;
  dev_assert ((0 <=? w) && (0 <=? h)) "Negative dimensions in ad.";;
  bl ← get left boundingClientRect;
  set (withX bl) boundingClientRect;;
  bt ← get top boundingClientRect;
  set (withY bt) boundingClientRect;;
  (* rectIntersection(rootBounds, elementLayoutBox) || layoutRectLtwh(0, 0, 0, 0) *)
  found ← rectIntersection rootBounds elementLayoutBox;
  intersectionRect ← match found with
                     | Some r => mret r
                     | None => layoutRectLtwh 0 0 0 0
                     end;
  il ← get left intersectionRect;
  set (withX il) intersectionRect;;
  it ← get top intersectionRect;
  set (withY it) intersectionRect;;
  mret {| time := measureTime;
          rootBounds := rootBounds;
          boundingClientRect := boundingClientRect;
          intersectionRect := intersectionRect |}.

(** The points of the plane a rectangle covers (its borders included). *)
Definition covers (r : LayoutRectDef) (px py : Z) : Prop :=
  left r <= px <= left r + width r /\ top r <= py <= top r + height r.

(** Two rectangles overlap when they share a point. *)
Definition overlap (a b : LayoutRectDef) : Prop :=
  exists px py, covers a px py /\ covers b px py.

(** ** The collaborators of the observer

    The timer, the vsync service, the viewport's scroll and changed
    observables and the post-message channel, as far as the observer uses
    them.  Every callback the observer hands out is one of its own methods,
    so the collaborators keep handles only. *)

(** A client window is identified by the window object ([==] on objects is
    identity); windows are numbered. *)
Record ClientWindow : Type := Client {
  win : nat;
  origin : string
}.

#[global] Instance ClientWindow_eq_dec : EqDecision ClientWindow.
Proof. solve_decision. Defined.

(** One call of [postMessageToWindows]: the windows addressed, the message
    type, the change records of the payload as they were at the call, the
    3p flag, and the clock at the call. *)
Record Message : Type := Post {
  targets : list ClientWindow;
  name : string;
  changes : list IntersectionObserverEntry;
  is3P : bool;
  sentAt : Z
}.

Record Env : Type := MkEnv {
  now : Z;                        (* the clock, in milliseconds *)
  timers : gmap positive Z;       (* pending [timer.delay(boundFlush_, _)]: handle and due time *)
  nextTimer : positive;
  measures : nat;                 (* [vsync.measure] callbacks not yet run *)
  scrollHandlers : list nat;      (* handlers of [viewport.onScroll], by subscription *)
  changedHandlers : list nat;     (* handlers of [viewport.onChanged], by subscription *)
  nextSubscription : nat;
  unlistened : list nat;          (* subscriptions whose unlisten function was called, in call order *)
  posted : list Message           (* the calls of [postMessageToWindows], oldest first *)
}.

(** Modelled from the spec: [timer.delay(callback, milliseconds)] of
    timer.js, which is not part of the sources: schedules the callback and
    returns a handle; handles are positive numbers. *)
Definition timer_delay (ms : Z) (e : Env) : positive * Env :=
  (nextTimer e,
   {| now := now e;
      timers := <[nextTimer e := now e + ms]> (timers e);
      nextTimer := Pos.succ (nextTimer e);
      measures := measures e;
      scrollHandlers := scrollHandlers e;
      changedHandlers := changedHandlers e;
      nextSubscription := nextSubscription e;
      unlistened := unlistened e;
      posted := posted e |}).

(** The timer service takes a due timer off its list before it runs the
    callback. *)
Definition timer_take (h : positive) (e : Env) : Env :=
  {| now := now e;
     timers := delete h (timers e);
     nextTimer := nextTimer e;
     measures := measures e;
     scrollHandlers := scrollHandlers e;
     changedHandlers := changedHandlers e;
     nextSubscription := nextSubscription e;
     unlistened := unlistened e;
     posted := posted e |}.

Definition tick (dt : N) (e : Env) : Env :=
  {| now := now e + Z.of_N dt;
     timers := timers e;
     nextTimer := nextTimer e;
     measures := measures e;
     scrollHandlers := scrollHandlers e;
     changedHandlers := changedHandlers e;
     nextSubscription := nextSubscription e;
     unlistened := unlistened e;
     posted := posted e |}.

(** Modelled from the spec: [getVsync().measure(callback)], which is not part
    of the sources: the callback runs once, later. *)
Definition vsync_measure (e : Env) : Env :=
  {| now := now e;
     timers := timers e;
     nextTimer := nextTimer e;
     measures := S (measures e);
     scrollHandlers := scrollHandlers e;
     changedHandlers := changedHandlers e;
     nextSubscription := nextSubscription e;
     unlistened := unlistened e;
     posted := posted e |}.

Definition vsync_take (e : Env) : Env :=
  {| now := now e;
     timers := timers e;
     nextTimer := nextTimer e;
     measures := Nat.pred (measures e);
     scrollHandlers := scrollHandlers e;
     changedHandlers := changedHandlers e;
     nextSubscription := nextSubscription e;
     unlistened := unlistened e;
     posted := posted e |}.

(** Modelled from the spec: [getViewport().onScroll(handler)], which is not
    part of the sources: subscribes the handler and returns its unlisten
    function, here the subscription it releases. *)
Definition viewport_onScroll (e : Env) : nat * Env :=
  (nextSubscription e,
   {| now := now e;
      timers := timers e;
      nextTimer := nextTimer e;
      measures := measures e;
      scrollHandlers := scrollHandlers e ++ [nextSubscription e];
      changedHandlers := changedHandlers e;
      nextSubscription := S (nextSubscription e);
      unlistened := unlistened e;
      posted := posted e |}).

(** Modelled from the spec: [getViewport().onChanged(handler)], which is not
    part of the sources. *)
Definition viewport_onChanged (e : Env) : nat * Env :=
  (nextSubscription e,
   {| now := now e;
      timers := timers e;
      nextTimer := nextTimer e;
      measures := measures e;
      scrollHandlers := scrollHandlers e;
      changedHandlers := changedHandlers e ++ [nextSubscription e];
      nextSubscription := S (nextSubscription e);
      unlistened := unlistened e;
      posted := posted e |}).

(** Calling an unlisten function: the handler is removed from its
    observable, and the call is recorded. *)
Definition unlisten (s : nat) (e : Env) : Env :=
  {| now := now e;
     timers := timers e;
     nextTimer := nextTimer e;
     measures := measures e;
     scrollHandlers := filter (fun s' => s' <> s) (scrollHandlers e);
     changedHandlers := filter (fun s' => s' <> s) (changedHandlers e);
     nextSubscription := nextSubscription e;
     unlistened := unlistened e ++ [s];
     posted := posted e |}.

(** Modelled from the spec: [postMessageToWindows(iframe, targets, type,
    object, is3p)] of iframe-helper.js, which is not part of the sources:
    the payload is sent to every target as it is at the call. *)
Definition postMessageToWindows (tgts : list ClientWindow) (type : string)
    (payload : list IntersectionObserverEntry) (is3p : bool) (e : Env) : Env :=
  {| now := now e;
     timers := timers e;
     nextTimer := nextTimer e;
     measures := measures e;
     scrollHandlers := scrollHandlers e;
     changedHandlers := changedHandlers e;
     nextSubscription := nextSubscription e;
     unlistened := unlistened e;
     posted := posted e ++ [{| targets := tgts; name := type; changes := payload;
                               is3P := is3p; sentAt := now e |}] |}.

(** ** The observer *)

(** The fields of an [IntersectionObserver] that change or that its methods
    read; [flushTimeout_] is a timer handle, or [0].
    [unlistenViewportChanges_] is the closure over the two unlisten
    functions, or absent. *)
Record IntersectionObserver : Type := Observer {
  clientWindows_ : list ClientWindow;
  is3p_ : bool;
  shouldSendIntersectionChanges_ : bool;
  inViewport_ : bool;
  pendingChanges_ : list IntersectionObserverEntry;
  flushTimeout_ : Z;
  unlistenViewportChanges_ : option (nat * nat)
}.

(** The observer together with its collaborators. *)
Record World : Type := MkWorld {
  this : IntersectionObserver;
  env : Env
}.

Definition set_env (e : Env) (w : World) : World :=
  {| this := this w; env := e |}.

Definition set_clientWindows_ (v : list ClientWindow) (w : World) : World :=
  {| this := {| clientWindows_ := v;
                is3p_ := is3p_ (this w);
                shouldSendIntersectionChanges_ := shouldSendIntersectionChanges_ (this w);
                inViewport_ := inViewport_ (this w);
                pendingChanges_ := pendingChanges_ (this w);
                flushTimeout_ := flushTimeout_ (this w);
                unlistenViewportChanges_ := unlistenViewportChanges_ (this w) |};
     env := env w |}.

Definition set_shouldSendIntersectionChanges_ (v : bool) (w : World) : World :=
  {| this := {| clientWindows_ := clientWindows_ (this w);
                is3p_ := is3p_ (this w);
                shouldSendIntersectionChanges_ := v;
                inViewport_ := inViewport_ (this w);
                pendingChanges_ := pendingChanges_ (this w);
                flushTimeout_ := flushTimeout_ (this w);
                unlistenViewportChanges_ := unlistenViewportChanges_ (this w) |};
     env := env w |}.

Definition set_inViewport_ (v : bool) (w : World) : World :=
  {| this := {| clientWindows_ := clientWindows_ (this w);
                is3p_ := is3p_ (this w);
                shouldSendIntersectionChanges_ := shouldSendIntersectionChanges_ (this w);
                inViewport_ := v;
                pendingChanges_ := pendingChanges_ (this w);
                flushTimeout_ := flushTimeout_ (this w);
                unlistenViewportChanges_ := unlistenViewportChanges_ (this w) |};
     env := env w |}.

Definition set_pendingChanges_ (v : list IntersectionObserverEntry) (w : World) : World :=
  {| this := {| clientWindows_ := clientWindows_ (this w);
                is3p_ := is3p_ (this w);
                shouldSendIntersectionChanges_ := shouldSendIntersectionChanges_ (this w);
                inViewport_ := inViewport_ (this w);
                pendingChanges_ := v;
                flushTimeout_ := flushTimeout_ (this w);
                unlistenViewportChanges_ := unlistenViewportChanges_ (this w) |};
     env := env w |}.

Definition set_flushTimeout_ (v : Z) (w : World) : World :=
  {| this := {| clientWindows_ := clientWindows_ (this w);
                is3p_ := is3p_ (this w);
                shouldSendIntersectionChanges_ := shouldSendIntersectionChanges_ (this w);
                inViewport_ := inViewport_ (this w);
                pendingChanges_ := pendingChanges_ (this w);
                flushTimeout_ := v;
                unlistenViewportChanges_ := unlistenViewportChanges_ (this w) |};
     env := env w |}.

Definition set_unlistenViewportChanges_ (v : option (nat * nat)) (w : World) : World :=
  {| this := {| clientWindows_ := clientWindows_ (this w);
                is3p_ := is3p_ (this w);
                shouldSendIntersectionChanges_ := shouldSendIntersectionChanges_ (this w);
                inViewport_ := inViewport_ (this w);
                pendingChanges_ := pendingChanges_ (this w);
                flushTimeout_ := flushTimeout_ (this w);
                unlistenViewportChanges_ := v |};
     env := env w |}.

(** [new IntersectionObserver(baseElement, iframe, opt_is3p)], lines 94-119,
    with collaborators that hold nothing of this observer yet. *)
Definition constructor (opt_is3p : bool) : World :=
  {| this := {| clientWindows_ := [];
                is3p_ := opt_is3p;
                shouldSendIntersectionChanges_ := false;
                inViewport_ := false;
                pendingChanges_ := [];
                flushTimeout_ := 0;
                unlistenViewportChanges_ := None |};
     env := {| now := 0;
               timers := ∅;
               nextTimer := 1;
               measures := 0;
               scrollHandlers := [];
               changedHandlers := [];
               nextSubscription := 0;
               unlistened := [];
               posted := [] |} |}.

(** [flush_()], lines 221-234. *)
Definition flush_ (w : World) : World :=
  let w := set_flushTimeout_ 0 w in
  if (length (pendingChanges_ (this w)) =? 0)%nat then w
  else
    let w := set_env (postMessageToWindows (clientWindows_ (this w)) "intersection"
                        (pendingChanges_ (this w)) (is3p_ (this w)) (env w)) w in
    set_pendingChanges_ [] w.

(** The test of lines 204-206: the queue is not empty and its last record
    has the time of [change]. *)
Definition sameTimeAsLast (pending : list IntersectionObserverEntry)
    (change : IntersectionObserverEntry) : bool :=
  (0 <? length pending)%nat &&
  match pending !! (length pending - 1)%nat with
  | Some l => time l =? time change
  | None => false
  end.

(** [sendElementIntersection_()], lines 199-216.  [change] is what
    [this.baseElement_.element.getIntersectionChangeEntry()] returns when it
    is called. *)
Definition sendElementIntersection_ (change : IntersectionObserverEntry)
    (w : World) : World :=
  if negb (shouldSendIntersectionChanges_ (this w)) then w
  else if sameTimeAsLast (pendingChanges_ (this w)) change then w
  else
    let w := set_pendingChanges_ (pendingChanges_ (this w) ++ [change]) w in
    if flushTimeout_ (this w) =? 0 then
      (* Send one immediately, ... *)
      let w := flush_ w in
      (* but only send a maximum of 10 postMessages per second. *)
      let '(h, e) := timer_delay 100 (env w) in
      set_flushTimeout_ (Z.pos h) (set_env e w)
    else w.

(** Modelled from the spec: [fire()] of the Observable the class extends
    (observable.js is not part of the sources): it calls the handlers added,
    synchronously.  [init_] adds one, which calls [sendElementIntersection_]
    (lines 140-142). *)
Definition fire (change : IntersectionObserverEntry) (w : World) : World :=
  sendElementIntersection_ change w.

(** [onViewportCallback(inViewport)], lines 168-191. *)
Definition onViewportCallback (inViewport : bool)
    (change : IntersectionObserverEntry) (w : World) : World :=
  if Bool.eqb (inViewport_ (this w)) inViewport then w
  else
    let w := set_inViewport_ inViewport w in
    let w := fire change w in
    if inViewport then
      let '(unlistenScroll, e) := viewport_onScroll (env w) in
      let '(unlistenChanged, e) := viewport_onChanged e in
      set_unlistenViewportChanges_ (Some (unlistenScroll, unlistenChanged)) (set_env e w)
    else
      match unlistenViewportChanges_ (this w) with
      | Some (unlistenScroll, unlistenChanged) =>
          let w := set_env (unlisten unlistenChanged (unlisten unlistenScroll (env w))) w in
          set_unlistenViewportChanges_ None w
      | None => w
      end.

(** [startSendingIntersectionChanges_()], lines 153-161: the flag, and the
    request of a measurement. *)
Definition startSendingIntersectionChanges_ (w : World) : World :=
  let w := set_shouldSendIntersectionChanges_ true w in
  set_env (vsync_measure (env w)) w.

(** The callback given to [measure], lines 155-160.  [isInViewport] is what
    [this.baseElement_.isInViewport()] returns. *)
Definition measureCallback (isInViewport : bool)
    (changeInView changeFire : IntersectionObserverEntry) (w : World) : World :=
  let w := if isInViewport then onViewportCallback true changeInView w else w in
  fire changeFire w.

(** The handler of 'send-intersections' that [init_] registers, lines
    128-135. *)
Definition onSendIntersections (source : nat) (origin : string) (w : World) : World :=
  let w :=
    if negb (existsb (fun entry => (win entry =? source)%nat) (clientWindows_ (this w)))
    then set_clientWindows_ (clientWindows_ (this w) ++ [{| win := source; origin := origin |}]) w
    else w in
  startSendingIntersectionChanges_ w.

(** ** Runs *)

(** What can happen to an observer.  An event carries what the element
    answers when the observer asks it during the event.  [SendIntersections]
    is the handler that [init_] registers with [listenFor] being called, with
    the source window and origin of the message. *)
Inductive Event : Type :=
| SendIntersections (source : nat) (origin : string)
    (* a 'send-intersections' message arrives *)
| Measure (isInViewport : bool) (changeInView changeFire : IntersectionObserverEntry)
    (* vsync runs a measure callback *)
| ViewportCallback (inViewport : bool) (change : IntersectionObserverEntry)
    (* the element calls [onViewportCallback] *)
| Scroll (change : IntersectionObserverEntry)
| Changed (change : IntersectionObserverEntry)
    (* the viewport calls its scroll or changed handlers *)
| Fire (change : IntersectionObserverEntry)
    (* somebody calls [fire] *)
| TimerFire (h : positive)
    (* the timer service runs a due timer *)
| Advance (dt : N).
    (* time passes *)

(** An observable calls each of its handlers; all of them are [fire]. *)
Definition fireEach (handlers : list nat) (change : IntersectionObserverEntry)
    (w : World) : World :=
  foldl (fun w _ => fire change w) w handlers.

(** One event; [None] when the event cannot happen in this world (no
    measure callback is waiting, the timer does not exist or is not due). *)
Definition step (ev : Event) (w : World) : option World :=
  match ev with
  | SendIntersections source origin => Some (onSendIntersections source origin w)
  | Measure isInViewport changeInView changeFire =>
      if (0 <? measures (env w))%nat
      then Some (measureCallback isInViewport changeInView changeFire
                   (set_env (vsync_take (env w)) w))
      else None
  | ViewportCallback inViewport change => Some (onViewportCallback inViewport change w)
  | Scroll change => Some (fireEach (scrollHandlers (env w)) change w)
  | Changed change => Some (fireEach (changedHandlers (env w)) change w)
  | Fire change => Some (fire change w)
  | TimerFire h =>
      match timers (env w) !! h with
      | Some due =>
          if due <=? now (env w)
          then Some (flush_ (set_env (timer_take h (env w)) w))
          else None
      | None => None
      end
  | Advance dt => Some (set_env (tick dt (env w)) w)
  end.

Fixpoint run (trace : list Event) (w : World) : option World :=
  match trace with
  | [] => Some w
  | ev :: rest =>
      match step ev w with
      | Some w' => run rest w'
      | None => None
      end
  end.

(** The two assignments [o.x = o.left; o.y = o.top]. *)
Definition withXY (o : LayoutRectDef) : LayoutRectDef :=
  withY (top o) (withX (left o) o).

Definition zeroRect : LayoutRectDef :=
  {| left := 0; top := 0; width := 0; height := 0; x := None; y := None |}.

(** The queue after a change is offered to it: a change with the time of
    the last record is dropped (lines 204-209). *)
Definition enqueue (pending : list IntersectionObserverEntry)
    (change : IntersectionObserverEntry) : list IntersectionObserverEntry :=
  if sameTimeAsLast pending change then pending else pending ++ [change].

Definition enqueueAll (pending changes : list IntersectionObserverEntry)
  : list IntersectionObserverEntry :=
  foldl enqueue pending changes.

(** The message [flush_] posts for a queue, in a given world. *)
Definition intersectionMessage (w : World)
    (payload : list IntersectionObserverEntry) (at_ : Z) : Message :=
  {| targets := clientWindows_ (this w); name := "intersection";
     changes := payload; is3P := is3p_ (this w); sentAt := at_ |}.

(** The 'send-intersections' messages among the events. *)
Definition isSendIntersections (ev : Event) : bool :=
  match ev with
  | SendIntersections _ _ => true
  | _ => false
  end.

(** The subscriptions of the observer agree with [inViewport_]: while it is
    in the viewport it holds the unlisten functions of one scroll and one
    changed subscription, both live; otherwise it holds none and has no
    handler subscribed.  No unlisten function has been called twice. *)
Definition subscribed (w : World) : Prop :=
  match unlistenViewportChanges_ (this w) with
  | Some (s, c) =>
      inViewport_ (this w) = true /\
      scrollHandlers (env w) = [s] /\ changedHandlers (env w) = [c] /\
      (s ∉ unlistened (env w)) /\ (c ∉ unlistened (env w)) /\ s <> c /\
      (s < nextSubscription (env w))%nat /\ (c < nextSubscription (env w))%nat
  | None =>
      inViewport_ (this w) = false /\
      scrollHandlers (env w) = [] /\ changedHandlers (env w) = []
  end /\
  NoDup (unlistened (env w)) /\
  (forall s, s ∈ unlistened (env w) -> (s < nextSubscription (env w))%nat).

(** The timer and the queue agree: without a timer the queue is empty, and
    while the flag is off there is no timer. *)
Definition consistent (w : World) : Prop :=
  (flushTimeout_ (this w) = 0 -> pendingChanges_ (this w) = []) /\
  (shouldSendIntersectionChanges_ (this w) = false -> flushTimeout_ (this w) = 0).

(** The windows that sent 'send-intersections' during a trace. *)
Definition sources (trace : list Event) : list nat :=
  flat_map (fun ev => match ev with
                      | SendIntersections source _ => [source]
                      | _ => []
                      end) trace.

(** The list of client windows after a registration (lines 131-133). *)
Definition register (source : nat) (origin : string) (clients : list ClientWindow)
  : list ClientWindow :=
  if negb (existsb (fun entry => (win entry =? source)%nat) clients)
  then clients ++ [{| win := source; origin := origin |}]
  else clients.

(** Changes offered while a timer is outstanding: before each one some time
    passes. *)
Definition burst (rest : list (N * IntersectionObserverEntry)) : list Event :=
  flat_map (fun next => [Advance next.1; Fire next.2]) rest.

Fixpoint elapsed (rest : list (N * IntersectionObserverEntry)) : N :=
  match rest with
  | [] => 0
  | next :: rest' => next.1 + elapsed rest'
  end.

(** No change has the time of the change before it. *)
Fixpoint noRepeatAfter (previous : Z) (changes : list IntersectionObserverEntry) : bool :=
  match changes with
  | [] => true
  | c :: rest => negb (previous =? time c) && noRepeatAfter (time c) rest
  end.

Definition noRepeat (changes : list IntersectionObserverEntry) : bool :=
  match changes with
  | [] => true
  | c :: rest => noRepeatAfter (time c) rest
  end.

(** The times of the changes the element hands out during an event, in the
    order of the calls. *)
Definition offered (ev : Event) : list Z :=
  match ev with
  | Measure _ changeInView changeFire => [time changeInView; time changeFire]
  | ViewportCallback _ change => [time change]
  | Scroll change => [time change]
  | Changed change => [time change]
  | Fire change => [time change]
  | _ => []
  end.

(** Times that never decrease, none below [lo]. *)
Fixpoint nondecreasingFrom (lo : Z) (times : list Z) : bool :=
  match times with
  | [] => true
  | t :: rest => (lo <=? t) && nondecreasingFrom t rest
  end.

Definition nondecreasing (times : list Z) : bool :=
  match times with
  | [] => true
  | t :: rest => nondecreasingFrom t rest
  end.

Definition earlier (a b : IntersectionObserverEntry) : Prop := time a < time b.

(** The queue is in strictly increasing order of time, and nothing in it is
    later than [lo]. *)
Definition ordered (lo : Z) (w : World) : Prop :=
  StronglySorted earlier (pendingChanges_ (this w)) /\
  Forall (fun e => time e <= lo) (pendingChanges_ (this w)).

(** The flag is off, the queue is empty, and the messages posted are
    [sent]. *)
Definition quiet (sent : list Message) (w : World) : Prop :=
  shouldSendIntersectionChanges_ (this w) = false /\
  pendingChanges_ (this w) = [] /\
  posted (env w) = sent.

(** The fields that [sendElementIntersection_] never writes. *)
Definition sameSetup (w w' : World) : Prop :=
  clientWindows_ (this w') = clientWindows_ (this w) /\
  is3p_ (this w') = is3p_ (this w) /\
  shouldSendIntersectionChanges_ (this w') = shouldSendIntersectionChanges_ (this w) /\
  now (env w') = now (env w) /\
  measures (env w') = measures (env w).

Definition sameSubscriptions (w w' : World) : Prop :=
  inViewport_ (this w') = inViewport_ (this w) /\
  unlistenViewportChanges_ (this w') = unlistenViewportChanges_ (this w) /\
  scrollHandlers (env w') = scrollHandlers (env w) /\
  changedHandlers (env w') = changedHandlers (env w) /\
  nextSubscription (env w') = nextSubscription (env w) /\
  unlistened (env w') = unlistened (env w).

(** The fields that decide what is posted and when. *)
Definition sameTraffic (w w' : World) : Prop :=
  clientWindows_ (this w') = clientWindows_ (this w) /\
  is3p_ (this w') = is3p_ (this w) /\
  shouldSendIntersectionChanges_ (this w') = shouldSendIntersectionChanges_ (this w) /\
  pendingChanges_ (this w') = pendingChanges_ (this w) /\
  flushTimeout_ (this w') = flushTimeout_ (this w) /\
  now (env w') = now (env w) /\
  timers (env w') = timers (env w) /\
  nextTimer (env w') = nextTimer (env w) /\
  measures (env w') = measures (env w) /\
  posted (env w') = posted (env w).

(** ** What the observer keeps over time *)

(** From [w] to [w']: the flag is not taken back, client windows and posted
    messages are only appended, the 3p flag stays, and the clock does not go
    back. *)
Definition grows (w w' : World) : Prop :=
  (shouldSendIntersectionChanges_ (this w) = true ->
   shouldSendIntersectionChanges_ (this w') = true) /\
  clientWindows_ (this w) `prefix_of` clientWindows_ (this w') /\
  posted (env w) `prefix_of` posted (env w') /\
  is3p_ (this w') = is3p_ (this w) /\
  now (env w) <= now (env w').

(** From [w] to [w']: nothing was posted and the timer handle is the same. *)
Definition held (w w' : World) : Prop :=
  posted (env w') = posted (env w) /\
  flushTimeout_ (this w') = flushTimeout_ (this w).

Definition isTimerFire (ev : Event) : bool :=
  match ev with
  | TimerFire _ => true
  | _ => false
  end.

(** The change entries the element hands out during an event, in the order
    of the calls that can ask for them. *)
Definition handed (ev : Event) : list IntersectionObserverEntry :=
  match ev with
  | Measure _ changeInView changeFire => [changeInView; changeFire]
  | ViewportCallback _ change => [change]
  | Scroll change => [change]
  | Changed change => [change]
  | Fire change => [change]
  | _ => []
  end.

(** The records the observer has taken so far: those of the messages posted,
    in the order posted, and then those still in the queue. *)
Definition delivered (w : World) : list IntersectionObserverEntry :=
  concat (map changes (posted (env w))) ++ pendingChanges_ (this w).

(** The posting times [ms] of the messages, the clock, the timer handle of
    the observer and the timers pending fit together: posting times never
    decrease and are not in the future; a message is posted at least 100 ms
    after the message two before it; and either no timer is pending and the
    handle is [0], the last but one message being at least 100 ms old, or
    exactly one timer is pending, its handle is the observer's, and it is due
    100 ms after the last message. *)
Definition pacedAt (ms : list Message) (clock : Z) (handle : Z)
    (pending : gmap positive Z) : Prop :=
  (forall i a b, ms !! i = Some a -> ms !! S i = Some b -> sentAt a <= sentAt b) /\
  (forall i m, ms !! i = Some m -> sentAt m <= clock) /\
  (forall i a c, ms !! i = Some a -> ms !! S (S i) = Some c ->
     sentAt a + 100 <= sentAt c) /\
  ((handle = 0 /\ pending = ∅ /\
    forall i m, ms !! i = Some m -> length ms = S (S i) -> sentAt m + 100 <= clock)
   \/
   (exists h i m, handle = Z.pos h /\ pending = {[h := sentAt m + 100]} /\
      ms !! i = Some m /\ length ms = S i)).

Definition paced (w : World) : Prop :=
  pacedAt (posted (env w)) (now (env w)) (flushTimeout_ (this w)) (timers (env w)).

(** Every message posted is an 'intersection' message with at least one
    record, for at least one window, with the observer's 3p flag, and its
    windows are client windows still; and an observer whose flag is on has a
    client window. *)
Definition wellPosted (w : World) : Prop :=
  Forall (fun m => name m = "intersection" /\ changes m <> [] /\ targets m <> [] /\
                   is3P m = is3p_ (this w) /\
                   targets m `prefix_of` clientWindows_ (this w))
         (posted (env w)) /\
  (shouldSendIntersectionChanges_ (this w) = true -> clientWindows_ (this w) <> []).

(** From [w] to [w'] at most one message was posted: none, or one with at
    least one record, to all the client windows, at the time of the clock,
    after which a timer is outstanding.  Client windows and clock are the
    same. *)
Definition once (w w' : World) : Prop :=
  clientWindows_ (this w') = clientWindows_ (this w) /\
  now (env w') = now (env w) /\
  (posted (env w') = posted (env w) \/
   exists m,
     posted (env w') = posted (env w) ++ [m] /\
     targets m = clientWindows_ (this w) /\ sentAt m = now (env w) /\
     changes m <> [] /\ flushTimeout_ (this w') <> 0).

(** A store for examples: a viewport rectangle at reference 1 and the layout
    box of an element at reference 2. *)
Definition viewportRect : LayoutRectDef :=
  {| left := 10; top := 20; width := 100; height := 50; x := None; y := None |}.

Definition adRect : LayoutRectDef :=
  {| left := 30; top := 40; width := 300; height := 250; x := None; y := None |}.

Definition farRect : LayoutRectDef :=
  {| left := 500; top := 600; width := 30; height := 25; x := None; y := None |}.

Definition sampleStore : gmap positive LayoutRectDef :=
  <[3%positive := farRect]> (<[2%positive := adRect]> (<[1%positive := viewportRect]> ∅)).

(** Runs for examples.  [entryAt t] is a change entry measured at time [t];
    its rectangles are the references 1, 2 and 3. *)
Definition entryAt (t : Z) : IntersectionObserverEntry :=
  {| time := t; rootBounds := 1; boundingClientRect := 2; intersectionRect := 3 |}.

(** A window asks for intersections, the measure callback runs with the
    element outside the viewport and posts the first record, and the timer
    fires after 100 ms with nothing queued. *)
Definition activation : list Event :=
  [SendIntersections 7 "https://a.test";
   Measure false (entryAt 0) (entryAt 0);
   Advance 100;
   TimerFire 1].

(** The world after [activation]: the flag is on, one record was posted, and
    no timer is outstanding. *)
Definition activated : World :=
  default (constructor false) (run activation (constructor false)).

(** Two more changes of a window, each 10 ms after the one before. *)
Definition twoMore : list (N * IntersectionObserverEntry) :=
  [(10%N, entryAt 110); (10%N, entryAt 120)].

(** Then three changes within one window, the last two measured at the same
    time, and the timer; and one more change a millisecond later. *)
Definition windowOfThree : list Event :=
  [Fire (entryAt 100);
   Advance 10; Fire (entryAt 110); Fire (entryAt 110);
   Advance 90; TimerFire 2].

Definition oneMore : list Event :=
  [Advance 1; Fire (entryAt 201)].

(** Four changes in the order of their times, two of them with the same
    time, and the world after them. *)
Definition inOrder : list Event :=
  activation ++ [Fire (entryAt 100); Fire (entryAt 110); Fire (entryAt 110);
                 Fire (entryAt 120)].

Definition queued : World :=
  default (constructor false) (run inOrder (constructor false)).

(** The element enters the viewport after the activation. *)
Definition watching : list Event :=
  activation ++ [ViewportCallback true (entryAt 130)].

Definition watched : World :=
  default (constructor false) (run watching (constructor false)).

(** Changes whose times go back while the timer is outstanding. *)
Definition outOfOrder : list Event :=
  [SendIntersections 7 "https://a.test";
   Measure false (entryAt 0) (entryAt 0);
   Fire (entryAt 1); Fire (entryAt 2); Fire (entryAt 1)].

(** Events before any window asked for intersections. *)
Definition unobserved : list Event :=
  [ViewportCallback true (entryAt 0); Scroll (entryAt 5); Changed (entryAt 9);
   Fire (entryAt 12); Advance 100; ViewportCallback false (entryAt 120);
   Scroll (entryAt 130)].

Definition unseen : World :=
  default (constructor false) (run unobserved (constructor false)).

(** The world after the window of three changes, and after the one change
    more. *)
Definition afterWindow : World :=
  default (constructor false) (run windowOfThree activated).

Definition rush : list Event := activation ++ windowOfThree ++ oneMore.

Definition afterRush : World :=
  default (constructor false) (run rush (constructor false)).

(** Events other than the timer, in a world where a timer is outstanding. *)
Definition busy : list Event :=
  [Fire (entryAt 130); Advance 5; Scroll (entryAt 135);
   ViewportCallback true (entryAt 140); Changed (entryAt 150);
   SendIntersections 8 "https://b.test"; Measure true (entryAt 160) (entryAt 160);
   Advance 200].

Definition afterBusy : World :=
  default (constructor false) (run busy queued).

(** A window asks an observer that no window has asked before, and the
    measure callback runs with the element in the viewport. *)
Definition asked : World :=
  default (constructor false)
    (run (unobserved ++ [SendIntersections 7 "https://a.test"]) (constructor false)).

Definition answered : World :=
  default (constructor false)
    (run [Measure true (entryAt 200) (entryAt 200)] asked).

(** When each message was posted, and the times of the records it carried. *)
Definition traffic (w : World) : list (Z * list Z) :=
  map (fun m => (sentAt m, map time (changes m))) (posted (env w)).

(** * Properties *)

(** ** Running [getIntersectionChangeEntry] *)

Section ChangeEntry.

Implicit Types (σ : gmap positive LayoutRectDef) (r : positive) (o : LayoutRectDef).

Lemma bind_run {A B : Type} (m : JS A) (f : A -> JS B) σ :
  (m ≫= f) σ = match m σ with
               | (Normal a, σ') => f a σ'
               | (Throw e, σ') => (Throw e, σ')
               end.
Proof. reflexivity. Qed.

Lemma ret_run {A : Type} (a : A) σ : @mret JS _ A a σ = (Normal a, σ).
Proof. reflexivity. Qed.

Lemma get_run {A : Type} (field : LayoutRectDef -> A) r σ o :
  σ !! r = Some o -> get field r σ = (Normal (field o), σ).
Proof. intros H. unfold get. by rewrite H. Qed.

Lemma set_run upd r σ o :
  σ !! r = Some o -> set upd r σ = (Normal tt, <[r := upd o]> σ).
Proof. intros H. unfold set. by rewrite H. Qed.

Lemma alloc_run o σ :
  alloc o σ = (Normal (fresh (dom σ)), <[fresh (dom σ) := o]> σ).
Proof. reflexivity. Qed.

Lemma fresh_lookup σ : σ !! fresh (dom σ) = None.
Proof. apply not_elem_of_dom, is_fresh. Qed.

Lemma fresh_ne σ r o : σ !! r = Some o -> r <> fresh (dom σ).
Proof. intros H ->. rewrite fresh_lookup in H. discriminate. Qed.

Lemma translate_run rect dx dy σ o :
  σ !! rect = Some o ->
  moveLayoutRect rect dx dy σ
  = (Normal (fresh (dom σ)), <[fresh (dom σ) := translate o dx dy]> σ).
Proof.
  intros H. unfold moveLayoutRect. rewrite bind_run, (get_run _ _ _ _ H).
  reflexivity.
Qed.

(** The whole run, on a store that holds both arguments. *)
Lemma getIntersectionChangeEntry_run t rb el σ R E :
  σ !! rb = Some R -> σ !! el = Some E ->
  let σ1 := <[rb := withXY R]> σ in
  let b := fresh (dom σ1) in
  let B := translate E (-1 * left R) (-1 * top R) in
  let σ2 := <[b := withXY B]> σ1 in
  let i := fresh (dom σ2) in
  getIntersectionChangeEntry t rb el σ =
    if (0 <=? width E) && (0 <=? height E)
    then (Normal (Entry t rb b i),
          <[i := withXY (default zeroRect (intersect R E))]> σ2)
    else (Throw "Negative dimensions in ad.", <[b := B]> σ1).
Proof.
  intros HR HE σ1 b B σ2 i.
  unfold getIntersectionChangeEntry.
  rewrite bind_run, (get_run _ _ _ _ HR).
  rewrite bind_run, (set_run _ _ _ _ HR).
  rewrite bind_run, (get_run _ rb _ (withX (left R) R)) by apply lookup_insert_eq.
  rewrite bind_run, (set_run _ rb _ (withX (left R) R)) by apply lookup_insert_eq.
  rewrite insert_insert_eq.
  change (<[rb := _]> σ) with σ1.
  assert (H1 : σ1 !! rb = Some (withXY R)) by apply lookup_insert_eq.
  assert (H2 : exists E', σ1 !! el = Some E' /\ left E' = left E /\ top E' = top E
                          /\ width E' = width E /\ height E' = height E).
  { destruct (decide (rb = el)) as [->|Hne].
    - exists (withXY R). rewrite HR in HE. injection HE as <-. done.
    - exists E. subst σ1. by rewrite lookup_insert_ne. }
  destruct H2 as (E' & HE' & El & Et & Ew & Eh).
  unfold getNumber.
  rewrite bind_run, bind_run, (get_run _ _ _ _ H1). cbn [x y withXY withX withY].
  rewrite ret_run.
  rewrite bind_run, bind_run, (get_run _ _ _ _ H1). cbn [x y withXY withX withY].
  rewrite ret_run.
  rewrite bind_run, (translate_run _ _ _ _ _ HE').
  assert (HB : translate E' (-1 * left R) (-1 * top R) = B).
  { unfold B, translate. by rewrite El, Et, Ew, Eh. }
  rewrite HB. fold b.
  set (σb := <[b := B]> σ1).
  assert (Hb : σb !! b = Some B) by apply lookup_insert_eq.
  rewrite bind_run, (get_run _ _ _ _ Hb).
  rewrite bind_run, (get_run _ _ _ _ Hb).
  change (width B) with (width E). change (height B) with (height E).
  rewrite bind_run.
  destruct ((0 <=? width E) && (0 <=? height E)); [|reflexivity].
  change (dev_assert true "Negative dimensions in ad." σb) with (Normal tt, σb).
  cbv beta iota.
  rewrite bind_run, (get_run _ _ _ _ Hb).
  rewrite bind_run, (set_run _ _ _ _ Hb).
  rewrite bind_run, (get_run _ b _ (withX (left B) B)) by apply lookup_insert_eq.
  rewrite bind_run, (set_run _ b _ (withX (left B) B)) by apply lookup_insert_eq.
  rewrite insert_insert_eq. unfold σb. rewrite insert_insert_eq.
  change (<[b := _]> σ1) with σ2.
  assert (Hbrb : b <> rb) by (apply not_eq_sym, (fresh_ne _ _ _ H1)).
  assert (Hbel : b <> el) by (apply not_eq_sym, (fresh_ne _ _ _ HE')).
  assert (H1' : σ2 !! rb = Some (withXY R)) by (unfold σ2; by rewrite lookup_insert_ne).
  assert (HE2 : σ2 !! el = Some E') by (unfold σ2; by rewrite lookup_insert_ne).
  unfold rectIntersection.
  rewrite bind_run, bind_run, (get_run _ _ _ _ H1'). cbv beta iota.
  rewrite bind_run, (get_run _ _ _ _ HE2). cbv beta iota.
  assert (HI : intersect (id (withXY R)) (id E') = intersect R E).
  { unfold intersect, id. cbn [left top width height withXY withX withY].
    by rewrite El, Et, Ew, Eh. }
  rewrite HI.
  assert (Htail : forall I0,
    (get left i ≫= λ il : Z, set (withX il) i ≫= λ _ : (),
       get top i ≫= λ it : Z, set (withY it) i ≫= λ _ : (),
         mret (Entry t rb b i)) (<[i := I0]> σ2)
    = (Normal (Entry t rb b i), <[i := withXY I0]> σ2)).
  { intros I0.
    rewrite bind_run, (get_run _ i _ I0) by apply lookup_insert_eq.
    rewrite bind_run, (set_run _ i _ I0) by apply lookup_insert_eq.
    rewrite bind_run, (get_run _ i _ (withX (left I0) I0)) by apply lookup_insert_eq.
    rewrite bind_run, (set_run _ i _ (withX (left I0) I0)) by apply lookup_insert_eq.
    rewrite ret_run. by rewrite !insert_insert_eq. }
  destruct (intersect R E) as [o|]; cbn [default].
  - rewrite bind_run. unfold layoutRectLtwh. rewrite alloc_run, ret_run.
    rewrite bind_run, ret_run. fold i. by rewrite Htail.
  - rewrite ret_run. rewrite bind_run. unfold layoutRectLtwh.
    rewrite alloc_run. fold i. by rewrite Htail.
Qed.

Lemma intersect_overlap a b :
  match intersect a b with
  | Some o =>
      0 <= width o /\ 0 <= height o /\
      forall px py, covers o px py <-> covers a px py /\ covers b px py
  | None => ~ overlap a b
  end.
Proof.
  unfold intersect.
  destruct (Z.max (left a) (left b) <=? Z.min (left a + width a) (left b + width b))
    eqn:Hx; cbn [andb].
  - destruct (Z.max (top a) (top b) <=? Z.min (top a + height a) (top b + height b))
      eqn:Hy.
    + apply Z.leb_le in Hx, Hy. unfold covers. cbn [left top width height].
      repeat split; lia.
    + apply Z.leb_gt in Hy. intros (px & py & Ha & Hb). unfold covers in *. lia.
  - apply Z.leb_gt in Hx. intros (px & py & Ha & Hb). unfold covers in *. lia.
Qed.

Lemma covers_withXY o px py : covers (withXY o) px py <-> covers o px py.
Proof. reflexivity. Qed.

End ChangeEntry.

(** C7: whenever [getIntersectionChangeEntry] produces a change entry, its
    [intersectionRect] is an object of the store (never null or absent), has
    non-negative width and height, covers exactly the points that both
    [rootBounds] and the untranslated [elementLayoutBox] cover when these
    overlap, and is the zero rectangle (0,0,0,0) when they do not. *)
Theorem intersectionRect_geometric_intersection
    (t : Z) (rb el : positive) (σ : gmap positive LayoutRectDef)
    (R E : LayoutRectDef) :
  σ !! rb = Some R -> σ !! el = Some E ->
  0 <= width E -> 0 <= height E ->
  exists entry σ' I,
    getIntersectionChangeEntry t rb el σ = (Normal entry, σ') /\
    σ' !! intersectionRect entry = Some I /\
    0 <= width I /\ 0 <= height I /\
    (overlap R E ->
       forall px py, covers I px py <-> covers R px py /\ covers E px py) /\
    (~ overlap R E ->
       left I = 0 /\ top I = 0 /\ width I = 0 /\ height I = 0).
Proof.
  intros HR HE Hw Hh.
  pose proof (getIntersectionChangeEntry_run t rb el σ R E HR HE) as Hrun.
  cbv zeta in Hrun.
  assert (Hc : (0 <=? width E) && (0 <=? height E) = true).
  { apply andb_true_intro. split; by apply Z.leb_le. }
  rewrite Hc in Hrun.
  eexists _, _, _. split; [exact Hrun|].
  cbn [intersectionRect]. split; [apply lookup_insert_eq|].
  pose proof (intersect_overlap R E) as HI.
  destruct (intersect R E) as [o|]; cbn [default].
  - destruct HI as (Hwo & Hho & Hcov).
    split; [exact Hwo|]. split; [exact Hho|]. split.
    + intros _ px py. rewrite covers_withXY. apply Hcov.
    + intros Hno. exfalso. apply Hno.
      exists (left o), (top o). apply Hcov. unfold covers. lia.
  - split; [done|]. split; [done|]. split; [|done].
    intros Hov. contradiction.
Qed.

Lemma intersectionRect_geometric_intersection_witness :
  sampleStore !! 1%positive = Some viewportRect /\
  sampleStore !! 2%positive = Some adRect /\
  0 <= width adRect /\ 0 <= height adRect /\
  exists entry σ' I,
    getIntersectionChangeEntry 7 1 2 sampleStore = (Normal entry, σ') /\
    σ' !! intersectionRect entry = Some I /\
    0 <= width I /\ 0 <= height I /\
    (overlap viewportRect adRect ->
       forall px py, covers I px py <-> covers viewportRect px py /\ covers adRect px py) /\
    (~ overlap viewportRect adRect ->
       left I = 0 /\ top I = 0 /\ width I = 0 /\ height I = 0).
Proof.
  assert (H1 : sampleStore !! 1%positive = Some viewportRect) by (vm_compute; reflexivity).
  assert (H2 : sampleStore !! 2%positive = Some adRect) by (vm_compute; reflexivity).
  assert (H3 : 0 <= width adRect) by (simpl; lia).
  assert (H4 : 0 <= height adRect) by (simpl; lia).
  exact (conj H1 (conj H2 (conj H3 (conj H4
    (intersectionRect_geometric_intersection 7 1 2 sampleStore _ _ H1 H2 H3 H4))))).
Defined.

(** C8: [boundingClientRect] is [elementLayoutBox] translated by
    [(-rootBounds.x, -rootBounds.y)], with [x] and [y] set to its left and
    top.  When the translated rectangle has non-negative width and height
    the assertion holds and the entry is returned; when one of them is
    negative the call ends by throwing 'Negative dimensions in ad.' and
    returns no entry: nothing in the function catches the error. *)
Theorem boundingClientRect_translated_and_asserted
    (t : Z) (rb el : positive) (σ : gmap positive LayoutRectDef)
    (R E : LayoutRectDef) :
  σ !! rb = Some R -> σ !! el = Some E ->
  let moved := translate E (- left R) (- top R) in
  (0 <= width moved /\ 0 <= height moved ->
     exists entry σ' B,
       getIntersectionChangeEntry t rb el σ = (Normal entry, σ') /\
       σ' !! boundingClientRect entry = Some B /\
       B = withXY moved /\
       left B = left E - left R /\ top B = top E - top R /\
       width B = width E /\ height B = height E /\
       x B = Some (left B) /\ y B = Some (top B)) /\
  (width moved < 0 \/ height moved < 0 ->
     exists σ',
       getIntersectionChangeEntry t rb el σ
       = (Throw "Negative dimensions in ad.", σ')).
Proof.
  intros HR HE moved.
  pose proof (getIntersectionChangeEntry_run t rb el σ R E HR HE) as Hrun.
  cbv zeta in Hrun.
  assert (Hm : translate E (-1 * left R) (-1 * top R) = moved).
  { unfold moved, translate. f_equal; lia. }
  rewrite Hm in Hrun.
  change (width moved) with (width E). change (height moved) with (height E).
  split.
  - intros [Hw Hh].
    assert (Hc : (0 <=? width E) && (0 <=? height E) = true).
    { apply andb_true_intro. split; by apply Z.leb_le. }
    rewrite Hc in Hrun.
    eexists _, _, _. split; [exact Hrun|].
    cbn [boundingClientRect]. split.
    + rewrite lookup_insert_ne; [apply lookup_insert_eq|].
      apply not_eq_sym, (fresh_ne _ _ (withXY moved)), lookup_insert_eq.
    + unfold moved. cbn. repeat split; lia.
  - intros Hneg.
    assert (Hc : (0 <=? width E) && (0 <=? height E) = false).
    { apply andb_false_iff. destruct Hneg; [left | right]; by apply Z.leb_gt. }
    rewrite Hc in Hrun. eexists. exact Hrun.
Qed.

Lemma boundingClientRect_translated_and_asserted_witness :
  sampleStore !! 1%positive = Some viewportRect /\
  sampleStore !! 2%positive = Some adRect /\
  let moved := translate adRect (- left viewportRect) (- top viewportRect) in
  (0 <= width moved /\ 0 <= height moved ->
     exists entry σ' B,
       getIntersectionChangeEntry 7 1 2 sampleStore = (Normal entry, σ') /\
       σ' !! boundingClientRect entry = Some B /\
       B = withXY moved /\
       left B = left adRect - left viewportRect /\
       top B = top adRect - top viewportRect /\
       width B = width adRect /\ height B = height adRect /\
       x B = Some (left B) /\ y B = Some (top B)) /\
  (width moved < 0 \/ height moved < 0 ->
     exists σ',
       getIntersectionChangeEntry 7 1 2 sampleStore
       = (Throw "Negative dimensions in ad.", σ')).
Proof.
  assert (H1 : sampleStore !! 1%positive = Some viewportRect) by (vm_compute; reflexivity).
  assert (H2 : sampleStore !! 2%positive = Some adRect) by (vm_compute; reflexivity).
  exact (conj H1 (conj H2
    (boundingClientRect_translated_and_asserted 7 1 2 sampleStore _ _ H1 H2))).
Defined.




(** ** The methods of the observer *)

Section Methods.

Implicit Types (w : World) (c change : IntersectionObserverEntry).

Lemma sameTimeAsLast_nil c : sameTimeAsLast [] c = false.
Proof. reflexivity. Qed.

Lemma sameTimeAsLast_snoc q l c :
  sameTimeAsLast (q ++ [l]) c = (time l =? time c).
Proof.
  unfold sameTimeAsLast. rewrite length_app. cbn [length].
  replace (length q + 1 - 1)%nat with (length q + 0)%nat by lia.
  rewrite lookup_app_r by lia.
  replace (length q + 0 - length q)%nat with 0%nat by lia.
  cbn [lookup list_lookup].
  assert (H : (0 <? length q + 1)%nat = true) by (apply Nat.ltb_lt; lia).
  by rewrite H.
Qed.

(** While the flag is off, [sendElementIntersection_] does nothing. *)
Lemma send_inactive c w :
  shouldSendIntersectionChanges_ (this w) = false ->
  sendElementIntersection_ c w = w.
Proof. intros H. unfold sendElementIntersection_. by rewrite H. Qed.


(** While a timer is outstanding, a change is queued and nothing else
    happens. *)
Lemma send_queued c w :
  shouldSendIntersectionChanges_ (this w) = true ->
  flushTimeout_ (this w) <> 0 ->
  sendElementIntersection_ c w
  = set_pendingChanges_ (enqueue (pendingChanges_ (this w)) c) w.
Proof.
  intros Hs Hf. unfold sendElementIntersection_, enqueue. rewrite Hs. cbn [negb].
  destruct (sameTimeAsLast _ _).
  - by destruct w as [[] ?].
  - cbn. apply Z.eqb_neq in Hf. by rewrite Hf.
Qed.

(** With no timer outstanding and an empty queue, the change is posted at
    once and the timer is armed. *)
Lemma send_immediate c w :
  shouldSendIntersectionChanges_ (this w) = true ->
  flushTimeout_ (this w) = 0 ->
  pendingChanges_ (this w) = [] ->
  sendElementIntersection_ c w
  = set_flushTimeout_ (Z.pos (nextTimer (env w)))
      (set_env (timer_delay 100
                  (postMessageToWindows (clientWindows_ (this w)) "intersection" [c]
                     (is3p_ (this w)) (env w))).2 w).
Proof.
  intros Hs Hf Hp. unfold sendElementIntersection_. rewrite Hs, Hp. cbn [negb].
  rewrite sameTimeAsLast_nil. destruct w as [[] ?]. cbn in *. subst. reflexivity.
Qed.

End Methods.

(** ** Runs and invariants *)

Section Runs.

Implicit Types (w : World) (c change : IntersectionObserverEntry)
  (ev : Event) (trace : list Event).

(** A property that every event preserves holds after every run. *)
Lemma run_invariant (P : World -> Prop) (allowed : Event -> bool) :
  (forall ev w w', allowed ev = true -> P w -> step ev w = Some w' -> P w') ->
  forall trace w w',
    forallb allowed trace = true -> P w -> run trace w = Some w' -> P w'.
Proof.
  intros Hstep trace. induction trace as [|ev rest IH]; intros w w' Hall HP Hrun.
  - cbn in Hrun. by injection Hrun as <-.
  - cbn in Hrun, Hall. apply andb_prop in Hall as [Hev Hrest].
    destruct (step ev w) as [w1|] eqn:Hs; [|discriminate].
    eapply IH; [exact Hrest| |exact Hrun]. eapply Hstep; eauto.
Qed.

Lemma run_app trace1 trace2 w :
  run (trace1 ++ trace2) w = w1 ← run trace1 w; run trace2 w1.
Proof.
  revert w. induction trace1 as [|ev rest IH]; intros w; [done|].
  cbn. destruct (step ev w); [apply IH|done].
Qed.

Lemma forallb_all trace : forallb (fun _ => true) trace = true.
Proof. by induction trace. Qed.

(** Calling the handlers of an observable preserves what [fire]
    preserves. *)
Lemma fireEach_preserves (P : World -> Prop) c :
  (forall w, P w -> P (fire c w)) ->
  forall handlers w, P w -> P (fireEach handlers c w).
Proof.
  intros Hfire handlers. unfold fireEach.
  induction handlers as [|s rest IH]; intros w HP; [done|].
  cbn. apply IH, Hfire, HP.
Qed.

(** *** While the flag is off *)

Lemma fire_quiet sent c w : quiet sent w -> quiet sent (fire c w).
Proof. intros H. unfold fire. rewrite send_inactive; [done|apply H]. Qed.

Lemma onViewportCallback_quiet sent inViewport c w :
  quiet sent w -> quiet sent (onViewportCallback inViewport c w).
Proof.
  intros (Hs & Hp & Hm). unfold onViewportCallback.
  destruct (Bool.eqb _ _); [done|].
  unfold fire. rewrite send_inactive by done.
  destruct inViewport; [done|].
  cbn. by destruct (unlistenViewportChanges_ (this w)) as [[? ?]|].
Qed.

Lemma flush_quiet sent w : quiet sent w -> quiet sent (flush_ w).
Proof.
  intros (Hs & Hp & Hm). unfold flush_. cbn. by rewrite Hp.
Qed.

Lemma step_quiet sent ev w w' :
  negb (isSendIntersections ev) = true ->
  quiet sent w -> step ev w = Some w' -> quiet sent w'.
Proof.
  intros Hev Hq Hstep.
  destruct ev; cbn in Hev; try discriminate Hev; cbn [step] in Hstep.
  - destruct (0 <? measures (env w))%nat; [|discriminate].
    injection Hstep as <-. unfold measureCallback.
    apply fire_quiet. destruct isInViewport; [|done].
    by apply onViewportCallback_quiet.
  - injection Hstep as <-. by apply onViewportCallback_quiet.
  - injection Hstep as <-. apply fireEach_preserves; [apply fire_quiet|done].
  - injection Hstep as <-. apply fireEach_preserves; [apply fire_quiet|done].
  - injection Hstep as <-. by apply fire_quiet.
  - destruct (timers (env w) !! h) as [due|]; [|discriminate].
    destruct (due <=? now (env w)); [|discriminate].
    injection Hstep as <-. by apply flush_quiet.
  - injection Hstep as <-. done.
Qed.

(** *** What the methods leave alone *)

Lemma flush_frame w : sameSetup w (flush_ w) /\ sameSubscriptions w (flush_ w).
Proof.
  unfold flush_. cbn.
  destruct (length (pendingChanges_ (this w)) =? 0)%nat; by cbn.
Qed.

Lemma send_frame c w :
  sameSetup w (sendElementIntersection_ c w) /\
  sameSubscriptions w (sendElementIntersection_ c w).
Proof.
  unfold sendElementIntersection_.
  destruct (negb _); [done|].
  destruct (sameTimeAsLast _ _); [done|].
  cbn. destruct (flushTimeout_ (this w) =? 0); [|done].
  unfold flush_. cbn.
  destruct (length (pendingChanges_ (this w) ++ [c]) =? 0)%nat; by cbn.
Qed.

Lemma sameSubscriptions_subscribed w w' :
  sameSubscriptions w w' -> subscribed w -> subscribed w'.
Proof.
  intros (Hi & Hu & Hs & Hc & Hn & Hl). unfold subscribed.
  by rewrite Hi, Hu, Hs, Hc, Hn, Hl.
Qed.

(** *** The subscriptions *)

Lemma onViewportCallback_subscribed inViewport c w :
  subscribed w -> subscribed (onViewportCallback inViewport c w).
Proof.
  intros Hsub. unfold onViewportCallback.
  destruct (Bool.eqb (inViewport_ (this w)) inViewport) eqn:Hsame; [done|].
  apply Bool.eqb_false_iff in Hsame.
  destruct (send_frame c (set_inViewport_ inViewport w)) as [_ Hf].
  fold (fire c (set_inViewport_ inViewport w)) in Hf.
  set (w1 := fire c (set_inViewport_ inViewport w)) in *.
  destruct Hf as (Hi & Hu & Hs & Hc & Hn & Hl). cbn in Hi, Hu, Hs, Hc, Hn, Hl.
  destruct Hsub as (Hmatch & Hnodup & Hold).
  destruct inViewport.
  - destruct (unlistenViewportChanges_ (this w)) as [[s ch]|].
    { destruct Hmatch as (Hv & _). congruence. }
    destruct Hmatch as (_ & Hsh & Hch).
    unfold subscribed. cbn. rewrite Hi, Hs, Hc, Hn, Hl, Hsh, Hch.
    split; [|split].
    + repeat split; try done; try lia.
      * intros Hin. apply Hold in Hin. lia.
      * intros Hin. apply Hold in Hin. lia.
    + done.
    + intros s Hin. apply Hold in Hin. lia.
  - rewrite Hu.
    destruct (unlistenViewportChanges_ (this w)) as [[s ch]|] eqn:Hul.
    + destruct Hmatch as (_ & Hsh & Hch & Hsn & Hcn & Hne & Hsl & Hcl).
      unfold subscribed. cbn. rewrite Hi, Hs, Hc, Hn, Hl, Hsh, Hch.
      split; [|split].
      * cbn. repeat (case_decide; cbn); done.
      * rewrite <- app_assoc. cbn. apply NoDup_app. split; [done|]. split.
        -- intros s' Hin Hin'. apply list_elem_of_In in Hin'. cbn in Hin'.
           destruct Hin' as [<-|[<-|[]]]; done.
        -- apply NoDup_cons. split; [|apply NoDup_singleton].
           intros Hin. apply list_elem_of_In in Hin. cbn in Hin.
           destruct Hin as [->|[]]. done.
      * intros s' Hin. rewrite <- app_assoc in Hin.
        apply elem_of_app in Hin as [Hin|Hin]; [by apply Hold|].
        apply list_elem_of_In in Hin. cbn in Hin.
        destruct Hin as [<-|[<-|[]]]; done.
    + apply (sameSubscriptions_subscribed (set_inViewport_ false w)).
      * unfold w1. apply send_frame.
      * destruct Hmatch as (Hv & _). congruence.
Qed.

Lemma fire_subscribed c w : subscribed w -> subscribed (fire c w).
Proof. apply sameSubscriptions_subscribed, send_frame. Qed.

Lemma step_subscribed ev w w' :
  subscribed w -> step ev w = Some w' -> subscribed w'.
Proof.
  intros Hsub Hstep. destruct ev; cbn [step] in Hstep.
  - injection Hstep as <-. revert Hsub. apply sameSubscriptions_subscribed.
    unfold onSendIntersections, startSendingIntersectionChanges_.
    by destruct (negb _).
  - destruct (0 <? measures (env w))%nat; [|discriminate].
    injection Hstep as <-. unfold measureCallback.
    apply fire_subscribed.
    assert (H0 : subscribed (set_env (vsync_take (env w)) w)) by exact Hsub.
    destruct isInViewport; [|done].
    by apply onViewportCallback_subscribed.
  - injection Hstep as <-. by apply onViewportCallback_subscribed.
  - injection Hstep as <-. apply fireEach_preserves; [apply fire_subscribed|done].
  - injection Hstep as <-. apply fireEach_preserves; [apply fire_subscribed|done].
  - injection Hstep as <-. by apply fire_subscribed.
  - destruct (timers (env w) !! h) as [due|]; [|discriminate].
    destruct (due <=? now (env w)); [|discriminate].
    injection Hstep as <-.
    apply (sameSubscriptions_subscribed (set_env (timer_take h (env w)) w));
      [apply flush_frame|exact Hsub].
  - injection Hstep as <-. exact Hsub.
Qed.

Lemma constructor_subscribed opt_is3p : subscribed (constructor opt_is3p).
Proof.
  unfold subscribed. cbn. repeat split; try done.
  - apply NoDup_nil_2.
  - intros s Hin. by apply elem_of_nil in Hin.
Qed.

Lemma run_subscribed opt_is3p trace w :
  run trace (constructor opt_is3p) = Some w -> subscribed w.
Proof.
  intros Hrun.
  eapply (run_invariant subscribed (fun _ => true));
    [|apply forallb_all|apply (constructor_subscribed opt_is3p)|exact Hrun].
  intros ev w1 w2 _. apply step_subscribed.
Qed.

(** *** The client windows *)

Lemma sameSetup_trans w1 w2 w3 :
  sameSetup w1 w2 -> sameSetup w2 w3 -> sameSetup w1 w3.
Proof.
  intros (A1 & A2 & A3 & A4 & A5) (B1 & B2 & B3 & B4 & B5).
  unfold sameSetup. by rewrite B1, B2, B3, B4, B5.
Qed.

Lemma fire_setup c w : sameSetup w (fire c w).
Proof. apply send_frame. Qed.

Lemma fireEach_setup handlers c w : sameSetup w (fireEach handlers c w).
Proof.
  revert w. unfold fireEach.
  induction handlers as [|s rest IH]; intros w; [done|].
  cbn. eapply sameSetup_trans; [apply (fire_setup c)|apply IH].
Qed.

Lemma onViewportCallback_setup inViewport c w :
  sameSetup w (onViewportCallback inViewport c w).
Proof.
  unfold onViewportCallback. destruct (Bool.eqb _ _); [done|].
  pose proof (fire_setup c (set_inViewport_ inViewport w)) as Hf.
  set (w1 := fire c (set_inViewport_ inViewport w)) in *.
  destruct inViewport; [exact Hf|].
  destruct (unlistenViewportChanges_ (this w1)) as [[? ?]|]; exact Hf.
Qed.

Lemma onSendIntersections_clients source origin w :
  clientWindows_ (this (onSendIntersections source origin w))
  = register source origin (clientWindows_ (this w)).
Proof.
  unfold onSendIntersections, register. by destruct (negb _).
Qed.

Lemma step_clients ev w w' :
  step ev w = Some w' ->
  clientWindows_ (this w')
  = match ev with
    | SendIntersections source origin =>
        register source origin (clientWindows_ (this w))
    | _ => clientWindows_ (this w)
    end.
Proof.
  intros Hstep. destruct ev; cbn [step] in Hstep.
  - injection Hstep as <-. apply onSendIntersections_clients.
  - destruct (0 <? measures (env w))%nat; [|discriminate].
    injection Hstep as <-. unfold measureCallback.
    etrans; [apply fire_setup|].
    destruct isInViewport; [|done].
    exact (proj1 (onViewportCallback_setup true changeInView
                    (set_env (vsync_take (env w)) w))).
  - injection Hstep as <-. apply onViewportCallback_setup.
  - injection Hstep as <-. apply fireEach_setup.
  - injection Hstep as <-. apply fireEach_setup.
  - injection Hstep as <-. apply fire_setup.
  - destruct (timers (env w) !! h) as [due|]; [|discriminate].
    destruct (due <=? now (env w)); [|discriminate].
    injection Hstep as <-.
    exact (proj1 (proj1 (flush_frame (set_env (timer_take h (env w)) w)))).
  - by injection Hstep as <-.
Qed.

Lemma existsb_win source (clients : list ClientWindow) :
  existsb (fun entry => (win entry =? source)%nat) clients = true
  <-> source ∈ map win clients.
Proof.
  rewrite existsb_exists, list_elem_of_In, in_map_iff. split.
  - intros (e & Hin & He). apply Nat.eqb_eq in He. eauto.
  - intros (e & He & Hin). exists e. split; [done|]. by apply Nat.eqb_eq.
Qed.

Lemma register_spec source origin (clients : list ClientWindow) :
  NoDup (map win clients) ->
  NoDup (map win (register source origin clients)) /\
  forall s, s ∈ map win (register source origin clients)
            <-> s ∈ map win clients \/ s = source.
Proof.
  intros Hnd. unfold register.
  destruct (existsb _ clients) eqn:Hex; cbn [negb].
  - apply existsb_win in Hex. split; [done|].
    intros s. split; [by left|]. by intros [?| ->].
  - assert (Hnot : source ∉ map win clients).
    { intros Hin. apply existsb_win in Hin. congruence. }
    rewrite map_app. cbn [map win]. split.
    + apply NoDup_app. split; [done|]. split; [|apply NoDup_singleton].
      intros s Hin Hs. apply list_elem_of_singleton in Hs. by subst.
    + intros s. rewrite elem_of_app, list_elem_of_singleton. done.
Qed.

Lemma run_clients trace : forall w w',
  run trace w = Some w' ->
  NoDup (map win (clientWindows_ (this w))) ->
  NoDup (map win (clientWindows_ (this w'))) /\
  forall s, s ∈ map win (clientWindows_ (this w'))
            <-> s ∈ map win (clientWindows_ (this w)) \/ s ∈ sources trace.
Proof.
  induction trace as [|ev rest IH]; intros w w' Hrun Hnd.
  - cbn in Hrun. injection Hrun as <-. split; [done|].
    intros s. cbn. split; [by left|]. intros [?|Hin]; [done|].
    by apply elem_of_nil in Hin.
  - cbn [run] in Hrun. destruct (step ev w) as [w1|] eqn:Hs; [|discriminate].
    pose proof (step_clients _ _ _ Hs) as Hc.
    assert (H1 : NoDup (map win (clientWindows_ (this w1))) /\
                 forall s, s ∈ map win (clientWindows_ (this w1))
                           <-> s ∈ map win (clientWindows_ (this w))
                               \/ s ∈ sources [ev]).
    { rewrite Hc. destruct ev as [src org|? ? ?|? ?|?|?|?|?|?]; cbn;
        try (split; [done|]; intros s; split; [by left|];
             intros [?|Hin]; [done|]; by apply elem_of_nil in Hin).
      destruct (register_spec src org _ Hnd) as [Hn Hm].
      split; [done|]. intros s. rewrite Hm, list_elem_of_singleton. done. }
    destruct H1 as [Hnd1 Hm1].
    destruct (IH _ _ Hrun Hnd1) as [Hnd' Hm'].
    split; [done|]. intros s. rewrite Hm', Hm1.
    change (ev :: rest) with ([ev] ++ rest).
    unfold sources. rewrite flat_map_app. fold (sources [ev]) (sources rest).
    rewrite elem_of_app. tauto.
Qed.

(** *** The queue and the timer *)

(** [sendElementIntersection_] neither reads nor writes [inViewport_]. *)
Lemma send_set_inViewport c v w :
  sendElementIntersection_ c (set_inViewport_ v w)
  = set_inViewport_ v (sendElementIntersection_ c w).
Proof.
  unfold sendElementIntersection_. cbn.
  destruct (negb _); [done|].
  destruct (sameTimeAsLast _ _); [done|].
  destruct (flushTimeout_ (this w) =? 0); [|done].
  unfold flush_. cbn.
  destruct (length (pendingChanges_ (this w) ++ [c]) =? 0)%nat; done.
Qed.

Lemma sameTraffic_refl w : sameTraffic w w.
Proof. by unfold sameTraffic. Qed.

(** For the queue, the timer and the messages, [onViewportCallback] is
    [sendElementIntersection_] when the viewport state changes, and
    nothing otherwise. *)
Lemma onViewportCallback_traffic inViewport c w :
  sameTraffic
    (if Bool.eqb (inViewport_ (this w)) inViewport then w
     else sendElementIntersection_ c w)
    (onViewportCallback inViewport c w).
Proof.
  unfold onViewportCallback.
  destruct (Bool.eqb _ _); [apply sameTraffic_refl|].
  unfold fire. rewrite send_set_inViewport.
  set (w1 := sendElementIntersection_ c w).
  destruct inViewport; [by cbn|].
  cbn. destruct (unlistenViewportChanges_ (this w1)) as [[? ?]|]; by cbn.
Qed.

(** The same, for [sendElementIntersection_] on worlds that agree on these
    fields. *)
Lemma send_traffic c w1 w2 :
  sameTraffic w1 w2 ->
  sameTraffic (sendElementIntersection_ c w1) (sendElementIntersection_ c w2).
Proof.
  destruct w1 as [[cw1 p1 ss1 iv1 pc1 ft1 ul1] [nw1 tm1 nt1 ms1 sh1 ch1 ns1 un1 po1]].
  destruct w2 as [[cw2 p2 ss2 iv2 pc2 ft2 ul2] [nw2 tm2 nt2 ms2 sh2 ch2 ns2 un2 po2]].
  intros (H1 & H2 & H3 & H4 & H5 & H6 & H7 & H8 & H9 & H10).
  cbn in H1, H2, H3, H4, H5, H6, H7, H8, H9, H10. subst.
  unfold sendElementIntersection_. cbn.
  destruct (negb ss1); [by unfold sameTraffic|].
  destruct (sameTimeAsLast pc1 c); [by unfold sameTraffic|].
  destruct (ft1 =? 0); [|by unfold sameTraffic].
  unfold flush_. cbn.
  destruct (length (pc1 ++ [c]) =? 0)%nat; by unfold sameTraffic.
Qed.

Lemma sameTraffic_consistent w w' :
  sameTraffic w w' -> consistent w -> consistent w'.
Proof.
  intros (H1 & H2 & H3 & H4 & H5 & _). unfold consistent.
  by rewrite H3, H4, H5.
Qed.

Lemma flush_consistent w : consistent (flush_ w).
Proof.
  unfold consistent, flush_. cbn.
  destruct (pendingChanges_ (this w)) eqn:Hp; cbn; by rewrite ?Hp.
Qed.

Lemma send_consistent c w : consistent w -> consistent (sendElementIntersection_ c w).
Proof.
  intros Hc. pose proof Hc as [Hq Hs]. unfold sendElementIntersection_.
  destruct (shouldSendIntersectionChanges_ (this w)) eqn:Hflag; [|exact Hc].
  cbn [negb]. destruct (sameTimeAsLast _ _); [exact Hc|]. cbn.
  destruct (flushTimeout_ (this w) =? 0) eqn:Hf.
  - unfold flush_. cbn.
    destruct (length (pendingChanges_ (this w) ++ [c]) =? 0)%nat;
      unfold consistent; cbn; by rewrite Hflag.
  - unfold consistent. cbn. rewrite Hflag. apply Z.eqb_neq in Hf. done.
Qed.

Lemma onViewportCallback_consistent inViewport c w :
  consistent w -> consistent (onViewportCallback inViewport c w).
Proof.
  intros H. eapply sameTraffic_consistent; [apply onViewportCallback_traffic|].
  destruct (Bool.eqb _ _); [done|]. by apply send_consistent.
Qed.

Lemma step_consistent ev w w' :
  consistent w -> step ev w = Some w' -> consistent w'.
Proof.
  intros Hc Hstep. destruct ev; cbn [step] in Hstep.
  - injection Hstep as <-. destruct Hc as [Hq Hs].
    unfold onSendIntersections, startSendingIntersectionChanges_, consistent.
    by destruct (negb _).
  - destruct (0 <? measures (env w))%nat; [|discriminate].
    injection Hstep as <-. unfold measureCallback, fire.
    apply send_consistent.
    assert (H0 : consistent (set_env (vsync_take (env w)) w)) by exact Hc.
    destruct isInViewport; [|done]. by apply onViewportCallback_consistent.
  - injection Hstep as <-. by apply onViewportCallback_consistent.
  - injection Hstep as <-.
    apply fireEach_preserves; [intros ?; apply send_consistent|done].
  - injection Hstep as <-.
    apply fireEach_preserves; [intros ?; apply send_consistent|done].
  - injection Hstep as <-. by apply send_consistent.
  - destruct (timers (env w) !! h) as [due|]; [|discriminate].
    destruct (due <=? now (env w)); [|discriminate].
    injection Hstep as <-. apply flush_consistent.
  - injection Hstep as <-. exact Hc.
Qed.

Lemma run_consistent opt_is3p trace w :
  run trace (constructor opt_is3p) = Some w -> consistent w.
Proof.
  intros Hrun.
  eapply (run_invariant consistent (fun _ => true));
    [|apply forallb_all| |exact Hrun].
  - intros ev w1 w2 _. apply step_consistent.
  - by unfold consistent.
Qed.

(** *** A burst of changes behind the timer *)

Lemma enqueue_snoc q l c :
  enqueue (q ++ [l]) c = if time l =? time c then q ++ [l] else (q ++ [l]) ++ [c].
Proof. unfold enqueue. by rewrite sameTimeAsLast_snoc. Qed.

Lemma enqueue_nil c : enqueue [] c = [c].
Proof. reflexivity. Qed.

Lemma enqueueAll_cons q c cs :
  enqueueAll q (c :: cs) = enqueueAll (enqueue q c) cs.
Proof. reflexivity. Qed.

Lemma enqueue_sublist q c : sublist (enqueue q c) (q ++ [c]).
Proof.
  unfold enqueue. destruct (sameTimeAsLast q c); [|done].
  by apply sublist_inserts_r.
Qed.

Lemma enqueueAll_sublist cs : forall q, sublist (enqueueAll q cs) (q ++ cs).
Proof.
  induction cs as [|c cs IH]; intros q.
  - cbn. by rewrite app_nil_r.
  - rewrite enqueueAll_cons. etrans; [apply IH|].
    rewrite (cons_middle c q cs), app_assoc.
    apply sublist_app; [apply enqueue_sublist|done].
Qed.

Lemma enqueueAll_prefix cs : forall q, q `prefix_of` enqueueAll q cs.
Proof.
  induction cs as [|c cs IH]; intros q; [done|].
  rewrite enqueueAll_cons. etrans; [|apply IH]. unfold enqueue.
  destruct (sameTimeAsLast q c); [done|]. by apply prefix_app_r.
Qed.

Lemma enqueueAll_nonempty c cs : enqueueAll [] (c :: cs) <> [].
Proof.
  rewrite enqueueAll_cons, enqueue_nil. intros H.
  pose proof (enqueueAll_prefix cs [c]) as [k Hk]. rewrite H in Hk. done.
Qed.

Lemma enqueueAll_noRepeat cs : forall q l,
  noRepeatAfter (time l) cs = true ->
  enqueueAll (q ++ [l]) cs = (q ++ [l]) ++ cs.
Proof.
  induction cs as [|c cs IH]; intros q l H.
  - cbn. by rewrite app_nil_r.
  - cbn in H. apply andb_prop in H as [Hne Hrest].
    rewrite enqueueAll_cons, enqueue_snoc. apply negb_true_iff in Hne. rewrite Hne.
    rewrite (IH _ c Hrest). by rewrite <- !app_assoc.
Qed.

Lemma enqueueAll_all cs : noRepeat cs = true -> enqueueAll [] cs = cs.
Proof.
  destruct cs as [|c cs]; [done|]. cbn [noRepeat]. intros H.
  rewrite enqueueAll_cons, enqueue_nil. by apply (enqueueAll_noRepeat cs []).
Qed.

Lemma burst_run rest : forall w,
  shouldSendIntersectionChanges_ (this w) = true ->
  flushTimeout_ (this w) <> 0 ->
  run (burst rest) w
  = Some (set_pendingChanges_
            (enqueueAll (pendingChanges_ (this w)) (map snd rest))
            (set_env (tick (elapsed rest) (env w)) w)).
Proof.
  induction rest as [|[dt c] rest IH]; intros w Hflag Hf.
  - cbn. f_equal.
    destruct w as [[cw p3 ss iv pc ft ul] [nw tm nt ms sh ch ns un po]].
    unfold set_pendingChanges_, set_env, tick. cbn. by rewrite Z.add_0_r.
  - cbn [burst flat_map app run step fst snd].
    unfold fire. rewrite send_queued by done.
    fold (burst rest). rewrite IH by done.
    f_equal.
    destruct w as [[cw p3 ss iv pc ft ul] [nw tm nt ms sh ch ns un po]].
    unfold set_pendingChanges_, set_env, tick. cbn.
    by rewrite N2Z.inj_add, Z.add_assoc.
Qed.

(** *** The order of the queue *)

Lemma ordered_mono lo lo' w : lo <= lo' -> ordered lo w -> ordered lo' w.
Proof.
  intros Hle [Hs Hb]. split; [done|].
  eapply Forall_impl; [exact Hb|]. intros e He. cbn in He. lia.
Qed.

Lemma ordered_empty lo w : pendingChanges_ (this w) = [] -> ordered lo w.
Proof. intros H. unfold ordered. rewrite H. split; constructor. Qed.

Lemma sameTraffic_ordered lo w w' : sameTraffic w w' -> ordered lo w -> ordered lo w'.
Proof. intros (_ & _ & _ & Hp & _). unfold ordered. by rewrite Hp. Qed.

Lemma flush_ordered lo w : ordered lo w -> ordered lo (flush_ w).
Proof.
  intros H. unfold flush_. cbn.
  destruct (length (pendingChanges_ (this w)) =? 0)%nat; [exact H|].
  by apply (ordered_empty lo).
Qed.

Lemma send_ordered lo c w :
  ordered lo w -> lo <= time c -> ordered (time c) (sendElementIntersection_ c w).
Proof.
  intros Hord Hle. pose proof (ordered_mono _ _ _ Hle Hord) as Hord'.
  unfold sendElementIntersection_.
  destruct (negb _); [exact Hord'|].
  destruct (sameTimeAsLast (pendingChanges_ (this w)) c) eqn:Hdup; [exact Hord'|].
  assert (Hpush : ordered (time c)
                    (set_pendingChanges_ (pendingChanges_ (this w) ++ [c]) w)).
  { destruct Hord as [Hs Hb]. unfold ordered. cbn. split.
    - apply StronglySorted_app. split; [|split; [done|repeat constructor]].
      intros a b Ha Hb'. apply list_elem_of_singleton in Hb' as ->.
      destruct (pendingChanges_ (this w)) as [|l q _] using rev_ind;
        [by apply elem_of_nil in Ha|].
      rewrite sameTimeAsLast_snoc in Hdup. apply Z.eqb_neq in Hdup.
      rewrite Forall_app, Forall_singleton in Hb. destruct Hb as [_ Hl].
      unfold earlier.
      apply elem_of_app in Ha as [Ha|Ha].
      + assert (time a < time l); [|lia].
        eapply (StronglySorted_app_1_elem_of earlier); [exact Hs|exact Ha|].
        by apply list_elem_of_singleton.
      + apply list_elem_of_singleton in Ha as ->. lia.
    - apply Forall_app. split; [by destruct Hord'|].
      apply Forall_singleton. lia. }
  cbv zeta. cbn [flushTimeout_ this set_pendingChanges_].
  destruct (flushTimeout_ (this w) =? 0); [|exact Hpush].
  apply ordered_empty. unfold flush_. cbn.
  destruct (length (pendingChanges_ (this w) ++ [c]) =? 0)%nat eqn:Hlen; [|done].
  rewrite length_app in Hlen. cbn in Hlen. apply Nat.eqb_eq in Hlen. lia.
Qed.

Lemma fireEach_ordered handlers c : forall lo w,
  ordered lo w -> lo <= time c ->
  ordered (time c) (fireEach handlers c w).
Proof.
  unfold fireEach. induction handlers as [|s rest IH]; intros lo w Hord Hle.
  - by apply (ordered_mono lo).
  - cbn. apply (IH (time c)); [|lia]. by apply (send_ordered lo).
Qed.

Lemma onViewportCallback_ordered lo inViewport c w :
  ordered lo w -> lo <= time c ->
  ordered (time c) (onViewportCallback inViewport c w).
Proof.
  intros Hord Hle.
  eapply sameTraffic_ordered; [apply onViewportCallback_traffic|].
  destruct (Bool.eqb _ _); [by apply (ordered_mono lo)|by apply (send_ordered lo)].
Qed.

Lemma step_ordered lo ev w w' :
  ordered lo w -> nondecreasingFrom lo (offered ev) = true ->
  step ev w = Some w' -> ordered (List.last (offered ev) lo) w'.
Proof.
  intros Hord Hmono Hstep.
  destruct ev as [src org|vis c1 c2|vis c|c|c|c|h|dt];
    cbn [step] in Hstep; cbn in Hmono |- *.
  - injection Hstep as <-.
    unfold onSendIntersections, startSendingIntersectionChanges_.
    by destruct (negb _).
  - destruct (0 <? measures (env w))%nat; [|discriminate].
    injection Hstep as <-.
    apply andb_prop in Hmono as [H1 H2]. apply andb_prop in H2 as [H2 _].
    apply Z.leb_le in H1, H2. unfold measureCallback, fire.
    assert (H0 : ordered lo (set_env (vsync_take (env w)) w)) by exact Hord.
    destruct vis.
    + apply (send_ordered (time c1)); [|done].
      by apply (onViewportCallback_ordered lo).
    + apply (send_ordered lo); [done|lia].
  - injection Hstep as <-. apply andb_prop in Hmono as [H1 _].
    apply Z.leb_le in H1. by apply (onViewportCallback_ordered lo).
  - injection Hstep as <-. apply andb_prop in Hmono as [H1 _].
    apply Z.leb_le in H1. by apply (fireEach_ordered _ _ lo).
  - injection Hstep as <-. apply andb_prop in Hmono as [H1 _].
    apply Z.leb_le in H1. by apply (fireEach_ordered _ _ lo).
  - injection Hstep as <-. apply andb_prop in Hmono as [H1 _].
    apply Z.leb_le in H1. by apply (send_ordered lo).
  - destruct (timers (env w) !! h) as [due|]; [|discriminate].
    destruct (due <=? now (env w)); [|discriminate].
    injection Hstep as <-. by apply flush_ordered.
  - by injection Hstep as <-.
Qed.

Lemma last_cons_default (ts : list Z) : forall t d d',
  List.last (t :: ts) d = List.last (t :: ts) d'.
Proof.
  induction ts as [|t' ts IH]; intros t d d'; [done|].
  change (List.last (t' :: ts) d = List.last (t' :: ts) d'). apply IH.
Qed.

Lemma nondecreasingFrom_app lo ts1 ts2 :
  nondecreasingFrom lo (ts1 ++ ts2)
  = nondecreasingFrom lo ts1 && nondecreasingFrom (List.last ts1 lo) ts2.
Proof.
  revert lo. induction ts1 as [|t ts1 IH]; intros lo; [done|].
  cbn [app nondecreasingFrom]. rewrite IH, andb_assoc. do 2 f_equal.
  destruct ts1 as [|t' ts1]; [done|].
  change (List.last (t' :: ts1) t = List.last (t' :: ts1) lo).
  apply last_cons_default.
Qed.

Lemma run_ordered trace : forall lo w w',
  ordered lo w ->
  nondecreasingFrom lo (flat_map offered trace) = true ->
  run trace w = Some w' ->
  exists lo', ordered lo' w'.
Proof.
  induction trace as [|ev rest IH]; intros lo w w' Hord Hmono Hrun.
  - cbn in Hrun. injection Hrun as <-. by exists lo.
  - cbn [run] in Hrun. destruct (step ev w) as [w1|] eqn:Hs; [|discriminate].
    cbn [flat_map] in Hmono. rewrite nondecreasingFrom_app in Hmono.
    apply andb_prop in Hmono as [H1 H2].
    eapply IH; [|exact H2|exact Hrun].
    by apply (step_ordered lo ev w).
Qed.

Lemma nondecreasing_from times :
  nondecreasing times = true ->
  exists lo, nondecreasingFrom lo times = true.
Proof.
  destruct times as [|t rest]; [by exists 0|].
  cbn. intros H. exists t. by rewrite Z.leb_refl.
Qed.

Lemma sorted_lookup (q : list IntersectionObserverEntry) i j a b :
  StronglySorted earlier q -> (i < j)%nat ->
  q !! i = Some a -> q !! j = Some b -> time a < time b.
Proof.
  intros Hs Hlt Ha Hb. rewrite <- (take_drop j q) in Hs.
  apply (StronglySorted_app_1_elem_of earlier _ _ a b Hs).
  - apply (list_elem_of_lookup_2 _ i). by rewrite lookup_take_lt.
  - apply (list_elem_of_lookup_2 _ 0). by rewrite lookup_drop, Nat.add_0_r.
Qed.

End Runs.

(** C3: as long as no 'send-intersections' message arrives, the flag stays
    off, no message is posted, whatever viewport callbacks, scroll and
    changed events, [fire] calls and timers occur, and
    [sendElementIntersection_] leaves the world as it is. *)
Theorem no_handshake_no_broadcast
    (trace : list Event) (w w' : World) :
  shouldSendIntersectionChanges_ (this w) = false ->
  pendingChanges_ (this w) = [] ->
  forallb (fun ev => negb (isSendIntersections ev)) trace = true ->
  run trace w = Some w' ->
  shouldSendIntersectionChanges_ (this w') = false /\
  posted (env w') = posted (env w) /\
  forall change, sendElementIntersection_ change w' = w'.
Proof.
  intros Hs Hp Htrace Hrun.
  assert (Hq : quiet (posted (env w)) w') .
  { eapply (run_invariant (quiet (posted (env w)))); [|exact Htrace| |exact Hrun].
    - intros ev w1 w2. apply step_quiet.
    - done. }
  destruct Hq as (Hs' & _ & Hm').
  repeat split; [done..|].
  intros change. by apply send_inactive.
Qed.

Lemma no_handshake_no_broadcast_witness :
  shouldSendIntersectionChanges_ (this (constructor false)) = false /\
  pendingChanges_ (this (constructor false)) = [] /\
  forallb (fun ev => negb (isSendIntersections ev)) unobserved = true /\
  run unobserved (constructor false) = Some unseen /\
  shouldSendIntersectionChanges_ (this unseen) = false /\
  posted (env unseen) = posted (env (constructor false)) /\
  forall change, sendElementIntersection_ change unseen = unseen.
Proof.
  assert (H1 : shouldSendIntersectionChanges_ (this (constructor false)) = false)
    by reflexivity.
  assert (H2 : pendingChanges_ (this (constructor false)) = []) by reflexivity.
  assert (H3 : forallb (fun ev => negb (isSendIntersections ev)) unobserved = true)
    by reflexivity.
  assert (H4 : run unobserved (constructor false) = Some unseen)
    by (vm_compute; reflexivity).
  exact (conj H1 (conj H2 (conj H3 (conj H4
    (no_handshake_no_broadcast unobserved (constructor false) unseen H1 H2 H3 H4))))).
Defined.

(** C10: in every world a run of the observer reaches, the observer holds
    its unlisten functions, and has a scroll and a changed handler
    subscribed, exactly when [inViewport_] is true, and no unlisten function
    has been called twice.  When it leaves the viewport each of the two
    unlisten functions is called once, the handle is cleared, no handler
    remains, and a scroll event after that calls nothing: the world stays as
    it is. *)
Theorem subscriptions_iff_inViewport
    (opt_is3p : bool) (trace : list Event) (w : World) :
  run trace (constructor opt_is3p) = Some w ->
  (inViewport_ (this w) = true <-> is_Some (unlistenViewportChanges_ (this w))) /\
  (inViewport_ (this w) = true <-> scrollHandlers (env w) <> []) /\
  (inViewport_ (this w) = true <-> changedHandlers (env w) <> []) /\
  NoDup (unlistened (env w)) /\
  (inViewport_ (this w) = true ->
   forall change, exists s c,
     unlistenViewportChanges_ (this w) = Some (s, c) /\
     scrollHandlers (env w) = [s] /\ changedHandlers (env w) = [c] /\
     let w' := onViewportCallback false change w in
     inViewport_ (this w') = false /\
     unlistenViewportChanges_ (this w') = None /\
     scrollHandlers (env w') = [] /\ changedHandlers (env w') = [] /\
     unlistened (env w') = unlistened (env w) ++ [s; c] /\
     NoDup (unlistened (env w')) /\
     forall change', step (Scroll change') w' = Some w').
Proof.
  intros Hrun. pose proof (run_subscribed _ _ _ Hrun) as Hsub.
  pose proof Hsub as (Hmatch & Hnodup & Hold).
  destruct (unlistenViewportChanges_ (this w)) as [[s c]|] eqn:Hul.
  - destruct Hmatch as (Hv & Hsh & Hch & Hsn & Hcn & Hne & Hsl & Hcl).
    rewrite Hv, Hsh, Hch. repeat split; try done.
    intros _ change. exists s, c.
    split; [done|]. split; [done|]. split; [done|].
    pose proof (onViewportCallback_subscribed false change w Hsub) as Hsub'.
    destruct (send_frame change (set_inViewport_ false w)) as [_ Hf].
    fold (fire change (set_inViewport_ false w)) in Hf.
    assert (Heq : onViewportCallback false change w
                  = let w1 := fire change (set_inViewport_ false w) in
                    set_unlistenViewportChanges_ None
                      (set_env (unlisten c (unlisten s (env w1))) w1)).
    { unfold onViewportCallback. rewrite Hv. cbn [Bool.eqb]. cbv zeta.
      destruct Hf as (_ & Hu & _). cbn in Hu. by rewrite Hu, Hul. }
    cbv zeta in Heq |- *. rewrite Heq in Hsub' |- *. clear Heq.
    set (w1 := fire change (set_inViewport_ false w)) in *.
    destruct Hf as (Hi & Hu & Hs & Hc & Hn & Hl). cbn in Hi, Hu, Hs, Hc, Hn, Hl.
    destruct Hsub' as (Hmatch' & Hnodup' & _). cbn in Hmatch', Hnodup'.
    destruct Hmatch' as (_ & Hsh' & Hch').
    rewrite Hl, <- app_assoc in Hnodup'.
    cbn. rewrite Hl, <- app_assoc.
    split; [done|]. split; [done|]. split; [done|]. split; [done|].
    split; [done|]. split; [done|].
    intros change'. by rewrite Hsh'.
  - destruct Hmatch as (Hv & Hsh & Hch).
    rewrite Hv, Hsh, Hch. repeat split; try done; by intros [? ?].
Qed.

Lemma subscriptions_iff_inViewport_witness :
  run watching (constructor false) = Some watched /\
  (inViewport_ (this watched) = true
   <-> is_Some (unlistenViewportChanges_ (this watched))) /\
  (inViewport_ (this watched) = true <-> scrollHandlers (env watched) <> []) /\
  (inViewport_ (this watched) = true <-> changedHandlers (env watched) <> []) /\
  NoDup (unlistened (env watched)) /\
  (inViewport_ (this watched) = true ->
   forall change, exists s c,
     unlistenViewportChanges_ (this watched) = Some (s, c) /\
     scrollHandlers (env watched) = [s] /\ changedHandlers (env watched) = [c] /\
     let w' := onViewportCallback false change watched in
     inViewport_ (this w') = false /\
     unlistenViewportChanges_ (this w') = None /\
     scrollHandlers (env w') = [] /\ changedHandlers (env w') = [] /\
     unlistened (env w') = unlistened (env watched) ++ [s; c] /\
     NoDup (unlistened (env w')) /\
     forall change', step (Scroll change') w' = Some w').
Proof.
  assert (H0 : run watching (constructor false) = Some watched)
    by (vm_compute; reflexivity).
  exact (conj H0 (subscriptions_iff_inViewport false watching watched H0)).
Defined.

(** C6: after every run the client windows hold no window twice, and hold
    exactly the windows that sent 'send-intersections'.  A message from a
    window that is registered leaves the list as it is; a message from any
    other window appends one entry, whatever its origin. *)
Theorem one_entry_per_window
    (opt_is3p : bool) (trace : list Event) (w : World) :
  run trace (constructor opt_is3p) = Some w ->
  NoDup (map win (clientWindows_ (this w))) /\
  (forall s, s ∈ map win (clientWindows_ (this w)) <-> s ∈ sources trace) /\
  (forall s o, s ∈ map win (clientWindows_ (this w)) ->
     clientWindows_ (this (onSendIntersections s o w)) = clientWindows_ (this w)) /\
  (forall s o, s ∉ map win (clientWindows_ (this w)) ->
     clientWindows_ (this (onSendIntersections s o w))
     = clientWindows_ (this w) ++ [{| win := s; origin := o |}]).
Proof.
  intros Hrun.
  destruct (run_clients trace _ _ Hrun) as [Hnd Hm]; [apply NoDup_nil_2|].
  split; [exact Hnd|]. split.
  - intros s. rewrite Hm. cbn. split; [|by right].
    intros [Hin|Hin]; [|done]. by apply elem_of_nil in Hin.
  - split; intros s o Hin; rewrite onSendIntersections_clients; unfold register.
    + apply existsb_win in Hin. by rewrite Hin.
    + destruct (existsb _ _) eqn:Hex; [|done].
      apply existsb_win in Hex. done.
Qed.

Lemma one_entry_per_window_witness :
  run activation (constructor false) = Some activated /\
  NoDup (map win (clientWindows_ (this activated))) /\
  (forall s, s ∈ map win (clientWindows_ (this activated)) <-> s ∈ sources activation) /\
  (forall s o, s ∈ map win (clientWindows_ (this activated)) ->
     clientWindows_ (this (onSendIntersections s o activated))
     = clientWindows_ (this activated)) /\
  (forall s o, s ∉ map win (clientWindows_ (this activated)) ->
     clientWindows_ (this (onSendIntersections s o activated))
     = clientWindows_ (this activated) ++ [{| win := s; origin := o |}]).
Proof.
  assert (H0 : run activation (constructor false) = Some activated)
    by (vm_compute; reflexivity).
  exact (conj H0 (one_entry_per_window false activation activated H0)).
Defined.

(** C2: what a first 'send-intersections' message leads to, up to the
    firing of the timer.  In a world a run reaches with the flag off and no
    client window, the message sets the flag, registers the window and
    requests one measurement, posting nothing yet.  When the measure
    callback then runs with the element in the viewport, one message with
    one record is posted to that window.  If the observer had seen the
    element enter the viewport before, that is all: the timer fires without
    posting.  If it had not (as on a new observer), the record of the
    callback's own [fire] waits in the queue, is not dropped although
    nothing was measured anew, and is posted in a second message when the
    timer fires: two messages, where the comment of
    [startSendingIntersectionChanges_] says it 'sends one change record'. *)
Theorem handshake_then_timer
    (opt_is3p : bool) (trace : list Event) (w : World)
    (source : nat) (org : string) (changeInView changeFire : IntersectionObserverEntry)
    (wait : N) :
  run trace (constructor opt_is3p) = Some w ->
  shouldSendIntersectionChanges_ (this w) = false ->
  clientWindows_ (this w) = [] ->
  (100 <= wait)%N ->
  exists w1 w2 w3,
    step (SendIntersections source org) w = Some w1 /\
    shouldSendIntersectionChanges_ (this w1) = true /\
    clientWindows_ (this w1) = [{| win := source; origin := org |}] /\
    measures (env w1) = S (measures (env w)) /\
    posted (env w1) = posted (env w) /\
    step (Measure true changeInView changeFire) w1 = Some w2 /\
    measures (env w2) = measures (env w) /\
    posted (env w2)
    = posted (env w)
      ++ [intersectionMessage w1
            [if inViewport_ (this w) then changeFire else changeInView]
            (now (env w))] /\
    pendingChanges_ (this w2) = (if inViewport_ (this w) then [] else [changeFire]) /\
    run [Advance wait; TimerFire (nextTimer (env w))] w2 = Some w3 /\
    posted (env w3)
    = posted (env w)
      ++ (if inViewport_ (this w)
          then [intersectionMessage w1 [changeFire] (now (env w))]
          else [intersectionMessage w1 [changeInView] (now (env w));
                intersectionMessage w1 [changeFire] (now (env w) + Z.of_N wait)]) /\
    pendingChanges_ (this w3) = [] /\
    flushTimeout_ (this w3) = 0.
Proof.
  intros Hrun Hflag Hcw Hwait.
  destruct (run_consistent _ _ _ Hrun) as [Hq Hs].
  pose proof (Hs Hflag) as Hft. pose proof (Hq Hft) as Hp.
  destruct w as [[cw p3 ss iv pc ft ul] [nw tm nt ms sh ch ns un po]].
  cbn in Hflag, Hcw, Hft, Hp. subst.
  assert (Hdue : (nw + 100 <=? nw + Z.of_N wait) = true) by (apply Z.leb_le; lia).
  unfold intersectionMessage.
  destruct iv.
  - eexists _, _, _. split; [reflexivity|].
    cbn. do 8 (split; [reflexivity|]).
    cbn. rewrite lookup_insert_eq, Hdue.
    split; [reflexivity|]. cbn. by repeat split.
  - eexists _, _, _. split; [reflexivity|].
    cbn. do 8 (split; [reflexivity|]).
    cbn. rewrite lookup_insert_eq, Hdue.
    split; [reflexivity|]. cbn. split; [|by split].
    by rewrite <- app_assoc.
Qed.

Lemma handshake_then_timer_witness :
  run [] (constructor false) = Some (constructor false) /\
  shouldSendIntersectionChanges_ (this (constructor false)) = false /\
  clientWindows_ (this (constructor false)) = [] /\
  (100 <= 100)%N /\
  exists w1 w2 w3,
    step (SendIntersections 7 "https://a.test") (constructor false) = Some w1 /\
    shouldSendIntersectionChanges_ (this w1) = true /\
    clientWindows_ (this w1) = [{| win := 7; origin := "https://a.test" |}] /\
    measures (env w1) = S (measures (env (constructor false))) /\
    posted (env w1) = posted (env (constructor false)) /\
    step (Measure true (entryAt 0) (entryAt 0)) w1 = Some w2 /\
    measures (env w2) = measures (env (constructor false)) /\
    posted (env w2)
    = posted (env (constructor false))
      ++ [intersectionMessage w1
            [if inViewport_ (this (constructor false)) then entryAt 0 else entryAt 0]
            (now (env (constructor false)))] /\
    pendingChanges_ (this w2)
    = (if inViewport_ (this (constructor false)) then [] else [entryAt 0]) /\
    run [Advance 100; TimerFire (nextTimer (env (constructor false)))] w2 = Some w3 /\
    posted (env w3)
    = posted (env (constructor false))
      ++ (if inViewport_ (this (constructor false))
          then [intersectionMessage w1 [entryAt 0] (now (env (constructor false)))]
          else [intersectionMessage w1 [entryAt 0] (now (env (constructor false)));
                intersectionMessage w1 [entryAt 0]
                  (now (env (constructor false)) + Z.of_N 100)]) /\
    pendingChanges_ (this w3) = [] /\
    flushTimeout_ (this w3) = 0.
Proof.
  assert (H0 : run [] (constructor false) = Some (constructor false)) by reflexivity.
  assert (H1 : shouldSendIntersectionChanges_ (this (constructor false)) = false)
    by reflexivity.
  assert (H2 : clientWindows_ (this (constructor false)) = []) by reflexivity.
  assert (H3 : (100 <= 100)%N) by (vm_compute; discriminate).
  exact (conj H0 (conj H1 (conj H2 (conj H3
    (handshake_then_timer false [] (constructor false) 7 "https://a.test"
       (entryAt 0) (entryAt 0) 100 H0 H1 H2 H3))))).
Defined.

(** With no timer outstanding, two consecutive changes with the same time
    are both taken.  After [activation] the first is posted at once (at
    100), which empties the queue, so the second is not compared with it: it
    is queued, and posted when the timer fires (at 200). *)
Lemma same_time_both_sent :
  (fun w => (traffic w, map time (pendingChanges_ (this w))))
    <$> run (activation ++ [Fire (entryAt 100); Fire (entryAt 100)]) (constructor false)
  = Some ([(0, [0]); (100, [100])], [100]) /\
  traffic <$> run (activation ++ [Fire (entryAt 100); Fire (entryAt 100);
                                  Advance 100; TimerFire 2]) (constructor false)
  = Some [(0, [0]); (100, [100]); (200, [100])].
Proof. split; vm_compute; reflexivity. Qed.



(** C1, amended: in a world a run reaches with the flag on and no timer
    outstanding, let a first change be offered, then one or more further
    changes while time passes, and let the timer fire once its 100 ms are
    over.  Exactly two messages are posted: one at the first change,
    carrying it, and one when the timer fires, at least 100 ms later,
    carrying in the order offered the further changes that did not have the
    time of the change queued before them; these are all the further changes
    when no two consecutive ones have the same time.  Afterwards the queue
    is empty and no timer is outstanding. *)
Theorem window_posts_twice
    (opt_is3p : bool) (trace : list Event) (w : World)
    (first : IntersectionObserverEntry)
    (rest : list (N * IntersectionObserverEntry)) (wait : N) :
  run trace (constructor opt_is3p) = Some w ->
  shouldSendIntersectionChanges_ (this w) = true ->
  flushTimeout_ (this w) = 0 ->
  rest <> [] ->
  (100 <= elapsed rest + wait)%N ->
  exists w',
    run (Fire first :: burst rest ++ [Advance wait; TimerFire (nextTimer (env w))]) w
    = Some w' /\
    posted (env w')
    = posted (env w)
      ++ [intersectionMessage w [first] (now (env w));
          intersectionMessage w (enqueueAll [] (map snd rest))
            (now (env w) + Z.of_N (elapsed rest + wait))] /\
    enqueueAll [] (map snd rest) <> [] /\
    sublist (enqueueAll [] (map snd rest)) (map snd rest) /\
    (noRepeat (map snd rest) = true -> enqueueAll [] (map snd rest) = map snd rest) /\
    pendingChanges_ (this w') = [] /\
    flushTimeout_ (this w') = 0.
Proof.
  intros Hrun Hflag Hft Hrest Hwait.
  destruct (run_consistent _ _ _ Hrun) as [Hq _].
  pose proof (Hq Hft) as Hp.
  assert (Hne : enqueueAll [] (map snd rest) <> []).
  { destruct rest as [|[dt c] rest']; [done|]. apply enqueueAll_nonempty. }
  cbn [run step]. unfold fire. rewrite send_immediate by done.
  rewrite run_app.
  rewrite burst_run; [|done|done].
  destruct w as [[cw p3 ss iv pc ft ul] [nw tm nt ms sh ch ns un po]].
  cbn in Hflag, Hft, Hp. subst ss ft pc.
  cbn. rewrite lookup_insert_eq.
  assert (Hdue : (nw + 100 <=? nw + Z.of_N (elapsed rest) + Z.of_N wait) = true).
  { apply Z.leb_le. lia. }
  rewrite Hdue. unfold flush_. cbn.
  destruct (enqueueAll [] (map snd rest)) as [|c0 q0] eqn:Hall; [done|].
  cbn. eexists. split; [reflexivity|]. cbn.
  unfold intersectionMessage. cbn.
  split.
  { rewrite <- app_assoc. cbn. by rewrite N2Z.inj_add, Z.add_assoc. }
  split; [done|]. split.
  { rewrite <- Hall. apply (enqueueAll_sublist _ []). }
  split; [|done].
  intros Hno. rewrite <- Hall. by apply enqueueAll_all.
Qed.

(** C1, as stated, fails.  After [activation], three changes are offered
    within one window (measured at 100, 110 and 110): the two messages of
    the window, posted at 100 and at 200, carry two records, not three,
    because the third has the time of the second.  And one more change a
    millisecond after the timer fired is posted at once, at 201: two
    messages within one millisecond, since the timer is not armed again
    when it fires. *)
Lemma window_of_three_counterexample :
  traffic <$> run (activation ++ windowOfThree) (constructor false)
  = Some [(0, [0]); (100, [100]); (200, [110])] /\
  traffic <$> run (activation ++ windowOfThree ++ oneMore) (constructor false)
  = Some [(0, [0]); (100, [100]); (200, [110]); (201, [201])].
Proof. split; vm_compute; reflexivity. Qed.

Lemma window_posts_twice_witness :
  run activation (constructor false) = Some activated /\
  shouldSendIntersectionChanges_ (this activated) = true /\
  flushTimeout_ (this activated) = 0 /\
  twoMore <> [] /\
  (100 <= elapsed twoMore + 80)%N /\
  exists w',
    run (Fire (entryAt 100)
           :: burst twoMore ++ [Advance 80; TimerFire (nextTimer (env activated))])
      activated
    = Some w' /\
    posted (env w')
    = posted (env activated)
      ++ [intersectionMessage activated [entryAt 100] (now (env activated));
          intersectionMessage activated (enqueueAll [] (map snd twoMore))
            (now (env activated) + Z.of_N (elapsed twoMore + 80))] /\
    enqueueAll [] (map snd twoMore) <> [] /\
    sublist (enqueueAll [] (map snd twoMore)) (map snd twoMore) /\
    (noRepeat (map snd twoMore) = true ->
     enqueueAll [] (map snd twoMore) = map snd twoMore) /\
    pendingChanges_ (this w') = [] /\
    flushTimeout_ (this w') = 0.
Proof.
  assert (H0 : run activation (constructor false) = Some activated)
    by (vm_compute; reflexivity).
  assert (H1 : shouldSendIntersectionChanges_ (this activated) = true)
    by (vm_compute; reflexivity).
  assert (H2 : flushTimeout_ (this activated) = 0) by (vm_compute; reflexivity).
  assert (H3 : twoMore <> []) by discriminate.
  assert (H4 : (100 <= elapsed twoMore + 80)%N) by (vm_compute; discriminate).
  exact (conj H0 (conj H1 (conj H2 (conj H3 (conj H4
    (window_posts_twice false activation activated (entryAt 100) twoMore 80%N
       H0 H1 H2 H3 H4)))))).
Defined.

(** Only the last record of the queue is compared (lines 204-206).  Were
    the times of the changes to go back, which a monotonic measurement time
    excludes, a time could repeat in the queue: after [outOfOrder] the times
    in the queue would be 1, 2, 1. *)
Lemma times_going_back_repeat :
  (fun w => map time (pendingChanges_ (this w)))
    <$> run outOfOrder (constructor false)
  = Some [1; 2; 1].
Proof. vm_compute. reflexivity. Qed.

(** C5: in every world reached by a run in which the times of the changes
    handed to the observer never decrease, as measurement times do, no two
    records of the queue have the same time (the queue is in strictly
    increasing order of time). *)
Theorem queue_times_distinct
    (opt_is3p : bool) (trace : list Event) (w : World) :
  run trace (constructor opt_is3p) = Some w ->
  nondecreasing (flat_map offered trace) = true ->
  forall i j a b,
    i <> j ->
    pendingChanges_ (this w) !! i = Some a ->
    pendingChanges_ (this w) !! j = Some b ->
    time a <> time b.
Proof.
  intros Hrun Hmono.
  destruct (nondecreasing_from _ Hmono) as [lo Hlo].
  destruct (run_ordered trace lo (constructor opt_is3p) w) as [lo' [Hs _]];
    [by apply ordered_empty|done|done|].
  intros i j a b Hne Ha Hb.
  destruct (Nat.lt_total i j) as [Hlt|[Heq|Hgt]]; [|done|].
  - pose proof (sorted_lookup _ _ _ _ _ Hs Hlt Ha Hb). lia.
  - pose proof (sorted_lookup _ _ _ _ _ Hs Hgt Hb Ha). lia.
Qed.

Lemma queue_times_distinct_witness :
  run inOrder (constructor false) = Some queued /\
  nondecreasing (flat_map offered inOrder) = true /\
  forall i j a b,
    i <> j ->
    pendingChanges_ (this queued) !! i = Some a ->
    pendingChanges_ (this queued) !! j = Some b ->
    time a <> time b.
Proof.
  assert (H0 : run inOrder (constructor false) = Some queued)
    by (vm_compute; reflexivity).
  assert (H1 : nondecreasing (flat_map offered inOrder) = true)
    by (vm_compute; reflexivity).
  exact (conj H0 (conj H1 (queue_times_distinct false inOrder queued H0 H1))).
Defined.


(** ** Further properties of the observer *)

Section Keeping.

Implicit Types (w : World) (c change : IntersectionObserverEntry)
  (ev : Event) (trace : list Event).

Lemma grows_refl w : grows w w.
Proof. unfold grows. repeat split; try done; lia. Qed.

Lemma grows_trans w1 w2 w3 : grows w1 w2 -> grows w2 w3 -> grows w1 w3.
Proof.
  intros (A1 & A2 & A3 & A4 & A5) (B1 & B2 & B3 & B4 & B5).
  unfold grows. repeat split.
  - auto.
  - by etrans.
  - by etrans.
  - congruence.
  - lia.
Qed.

Lemma sameTraffic_grows w w' : sameTraffic w w' -> grows w w'.
Proof.
  intros (H1 & H2 & H3 & H4 & H5 & H6 & H7 & H8 & H9 & H10).
  unfold grows. rewrite H1, H2, H3, H6, H10. repeat split; try done; lia.
Qed.

Lemma flush_grows w : grows w (flush_ w).
Proof.
  unfold flush_, grows. cbn.
  destruct (length (pendingChanges_ (this w)) =? 0)%nat; cbn;
    repeat split; try done; try lia.
  by apply prefix_app_r.
Qed.

Lemma send_grows c w : grows w (sendElementIntersection_ c w).
Proof.
  unfold sendElementIntersection_.
  destruct (negb _); [apply grows_refl|].
  destruct (sameTimeAsLast _ _); [apply grows_refl|].
  cbn. destruct (flushTimeout_ (this w) =? 0).
  - unfold flush_, grows. cbn.
    destruct (length (pendingChanges_ (this w) ++ [c]) =? 0)%nat; cbn;
      repeat split; try done; try lia.
    by apply prefix_app_r.
  - unfold grows. cbn. repeat split; try done; lia.
Qed.

Lemma onViewportCallback_grows inViewport c w :
  grows w (onViewportCallback inViewport c w).
Proof.
  eapply grows_trans; [|apply sameTraffic_grows, onViewportCallback_traffic].
  destruct (Bool.eqb _ _); [apply grows_refl|apply send_grows].
Qed.

Lemma fireEach_grows handlers c : forall w, grows w (fireEach handlers c w).
Proof.
  unfold fireEach. induction handlers as [|s rest IH]; intros w; [apply grows_refl|].
  cbn. eapply grows_trans; [apply (send_grows c)|apply IH].
Qed.

Lemma onSendIntersections_grows source org w :
  grows w (onSendIntersections source org w).
Proof.
  unfold onSendIntersections, startSendingIntersectionChanges_, grows.
  destruct (negb _); cbn; repeat split; try done; try lia.
  by apply prefix_app_r.
Qed.

Lemma step_grows ev w w' : step ev w = Some w' -> grows w w'.
Proof.
  intros Hstep. destruct ev; cbn [step] in Hstep.
  - injection Hstep as <-. apply onSendIntersections_grows.
  - destruct (0 <? measures (env w))%nat; [|discriminate].
    injection Hstep as <-. unfold measureCallback, fire.
    eapply grows_trans; [|apply send_grows].
    destruct isInViewport.
    + apply (grows_trans _ (set_env (vsync_take (env w)) w));
        [|apply onViewportCallback_grows].
      unfold grows. cbn. repeat split; try done; lia.
    + unfold grows. cbn. repeat split; try done; lia.
  - injection Hstep as <-. apply onViewportCallback_grows.
  - injection Hstep as <-. apply fireEach_grows.
  - injection Hstep as <-. apply fireEach_grows.
  - injection Hstep as <-. apply send_grows.
  - destruct (timers (env w) !! h) as [due|]; [|discriminate].
    destruct (due <=? now (env w)); [|discriminate].
    injection Hstep as <-.
    apply (grows_trans _ (set_env (timer_take h (env w)) w)); [|apply flush_grows].
    unfold grows. cbn. repeat split; try done; lia.
  - injection Hstep as <-. unfold grows. cbn. repeat split; try done; lia.
Qed.

Lemma run_grows trace : forall w w', run trace w = Some w' -> grows w w'.
Proof.
  induction trace as [|ev rest IH]; intros w w' Hrun.
  - cbn in Hrun. injection Hrun as <-. apply grows_refl.
  - cbn [run] in Hrun. destruct (step ev w) as [w1|] eqn:Hs; [|discriminate].
    eapply grows_trans; [by apply (step_grows ev)|by apply IH].
Qed.

(** *** While a timer is outstanding *)

Lemma held_refl w : held w w.
Proof. by unfold held. Qed.

Lemma held_trans w1 w2 w3 : held w1 w2 -> held w2 w3 -> held w1 w3.
Proof. intros [A1 A2] [B1 B2]. unfold held. by rewrite B1, B2. Qed.

Lemma sameTraffic_held w w' : sameTraffic w w' -> held w w'.
Proof. intros (_ & _ & _ & _ & H5 & _ & _ & _ & _ & H10). by unfold held. Qed.

Lemma send_held c w :
  flushTimeout_ (this w) <> 0 -> held w (sendElementIntersection_ c w).
Proof.
  intros Hf. unfold sendElementIntersection_.
  destruct (negb _); [apply held_refl|].
  destruct (sameTimeAsLast _ _); [apply held_refl|].
  cbn. apply Z.eqb_neq in Hf. rewrite Hf. by unfold held.
Qed.

Lemma held_armed w w' :
  held w w' -> flushTimeout_ (this w) <> 0 -> flushTimeout_ (this w') <> 0.
Proof. intros [_ H]. by rewrite H. Qed.

Lemma onViewportCallback_held inViewport c w :
  flushTimeout_ (this w) <> 0 -> held w (onViewportCallback inViewport c w).
Proof.
  intros Hf.
  eapply held_trans; [|apply sameTraffic_held, onViewportCallback_traffic].
  destruct (Bool.eqb _ _); [apply held_refl|by apply send_held].
Qed.

Lemma fireEach_held handlers c : forall w,
  flushTimeout_ (this w) <> 0 -> held w (fireEach handlers c w).
Proof.
  unfold fireEach. induction handlers as [|s rest IH]; intros w Hf; [apply held_refl|].
  cbn. pose proof (send_held c w Hf) as H1.
  eapply held_trans; [exact H1|]. apply IH. by apply (held_armed w).
Qed.

Lemma step_held ev w w' :
  flushTimeout_ (this w) <> 0 -> isTimerFire ev = false ->
  step ev w = Some w' -> held w w'.
Proof.
  intros Hf Hev Hstep. destruct ev; cbn in Hev; try discriminate Hev;
    cbn [step] in Hstep.
  - injection Hstep as <-.
    unfold onSendIntersections, startSendingIntersectionChanges_, held.
    by destruct (negb _).
  - destruct (0 <? measures (env w))%nat; [|discriminate].
    injection Hstep as <-. unfold measureCallback, fire.
    set (w0 := set_env (vsync_take (env w)) w).
    assert (H0 : held w w0) by done.
    assert (Hf0 : flushTimeout_ (this w0) <> 0) by done.
    destruct isInViewport.
    + pose proof (onViewportCallback_held true changeInView w0 Hf0) as H1.
      eapply held_trans; [exact H0|]. eapply held_trans; [exact H1|].
      apply send_held. by apply (held_armed w0).
    + eapply held_trans; [exact H0|]. by apply send_held.
  - injection Hstep as <-. by apply onViewportCallback_held.
  - injection Hstep as <-. by apply fireEach_held.
  - injection Hstep as <-. by apply fireEach_held.
  - injection Hstep as <-. by apply send_held.
  - by injection Hstep as <-.
Qed.

Lemma run_held trace : forall w w',
  flushTimeout_ (this w) <> 0 ->
  forallb (fun ev => negb (isTimerFire ev)) trace = true ->
  run trace w = Some w' -> held w w'.
Proof.
  induction trace as [|ev rest IH]; intros w w' Hf Hall Hrun.
  - cbn in Hrun. injection Hrun as <-. apply held_refl.
  - cbn [run] in Hrun. cbn in Hall. apply andb_prop in Hall as [Hev Hrest].
    apply negb_true_iff in Hev.
    destruct (step ev w) as [w1|] eqn:Hs; [|discriminate].
    pose proof (step_held _ _ _ Hf Hev Hs) as H1.
    eapply held_trans; [exact H1|]. apply IH; [by apply (held_armed w)|done..].
Qed.

(** *** A repeated viewport callback *)

Lemma onViewportCallback_inViewport inViewport c w :
  inViewport_ (this (onViewportCallback inViewport c w)) = inViewport.
Proof.
  unfold onViewportCallback.
  destruct (Bool.eqb (inViewport_ (this w)) inViewport) eqn:Hsame.
  - by apply Bool.eqb_prop.
  - destruct (send_frame c (set_inViewport_ inViewport w)) as [_ (Hi & _)].
    fold (fire c (set_inViewport_ inViewport w)) in Hi.
    set (w1 := fire c (set_inViewport_ inViewport w)) in *.
    cbn in Hi. destruct inViewport; [exact Hi|].
    destruct (unlistenViewportChanges_ (this w1)) as [[? ?]|]; exact Hi.
Qed.

(** *** The records taken *)

Lemma sameTraffic_delivered w w' : sameTraffic w w' -> delivered w' = delivered w.
Proof.
  intros (_ & _ & _ & H4 & _ & _ & _ & _ & _ & H10).
  unfold delivered. by rewrite H4, H10.
Qed.

Lemma flush_delivered w : delivered (flush_ w) = delivered w.
Proof.
  unfold flush_, delivered. cbn.
  destruct (pendingChanges_ (this w)) as [|e q] eqn:Hp; cbn; rewrite ?Hp; [done|].
  rewrite map_app, concat_app. cbn. by rewrite !app_nil_r.
Qed.

Lemma send_delivered c w :
  exists used,
    sublist used [c] /\
    delivered (sendElementIntersection_ c w) = delivered w ++ used.
Proof.
  unfold sendElementIntersection_.
  destruct (negb _).
  { exists []. split; [apply sublist_nil_l|by rewrite app_nil_r]. }
  destruct (sameTimeAsLast _ _).
  { exists []. split; [apply sublist_nil_l|by rewrite app_nil_r]. }
  exists [c]. split; [done|]. cbn.
  destruct (flushTimeout_ (this w) =? 0).
  - unfold flush_, delivered. cbn.
    destruct (length (pendingChanges_ (this w) ++ [c]) =? 0)%nat eqn:Hlen.
    { rewrite length_app in Hlen. cbn in Hlen. apply Nat.eqb_eq in Hlen. lia. }
    cbn. rewrite map_app, concat_app. cbn. by rewrite !app_nil_r, app_assoc.
  - unfold delivered. cbn. by rewrite app_assoc.
Qed.

Lemma onViewportCallback_delivered inViewport c w :
  exists used,
    sublist used [c] /\
    delivered (onViewportCallback inViewport c w) = delivered w ++ used.
Proof.
  rewrite (sameTraffic_delivered _ _ (onViewportCallback_traffic inViewport c w)).
  destruct (Bool.eqb _ _); [|apply send_delivered].
  exists []. split; [apply sublist_nil_l|by rewrite app_nil_r].
Qed.

Lemma fireEach_delivered handlers c w :
  (length handlers <= 1)%nat ->
  exists used,
    sublist used [c] /\
    delivered (fireEach handlers c w) = delivered w ++ used.
Proof.
  intros Hlen. destruct handlers as [|s [|s' rest]]; [| |cbn in Hlen; lia].
  - exists []. split; [apply sublist_nil_l|by rewrite app_nil_r].
  - apply send_delivered.
Qed.

Lemma subscribed_handlers w :
  subscribed w ->
  (length (scrollHandlers (env w)) <= 1)%nat /\
  (length (changedHandlers (env w)) <= 1)%nat.
Proof.
  intros [Hmatch _].
  destruct (unlistenViewportChanges_ (this w)) as [[s c]|].
  - destruct Hmatch as (_ & -> & -> & _). cbn. lia.
  - destruct Hmatch as (_ & -> & ->). cbn. lia.
Qed.

Lemma step_delivered ev w w' :
  subscribed w -> step ev w = Some w' ->
  exists used, sublist used (handed ev) /\ delivered w' = delivered w ++ used.
Proof.
  intros Hsub Hstep. destruct (subscribed_handlers w Hsub) as [Hsh Hch].
  destruct ev as [src org|vis c1 c2|vis c|c|c|c|h|dt]; cbn [step] in Hstep; cbn [handed].
  - injection Hstep as <-. exists []. split; [done|].
    rewrite app_nil_r. unfold onSendIntersections, startSendingIntersectionChanges_.
    by destruct (negb _).
  - destruct (0 <? measures (env w))%nat; [|discriminate].
    injection Hstep as <-. unfold measureCallback, fire.
    set (w0 := set_env (vsync_take (env w)) w).
    assert (H1 : exists used1, sublist used1 [c1] /\
                   delivered (if vis then onViewportCallback true c1 w0 else w0)
                   = delivered w ++ used1).
    { destruct vis; [apply (onViewportCallback_delivered true c1 w0)|].
      exists []. split; [apply sublist_nil_l|by rewrite app_nil_r]. }
    destruct H1 as (used1 & Hs1 & Hd1).
    destruct (send_delivered c2 (if vis then onViewportCallback true c1 w0 else w0))
      as (used2 & Hs2 & Hd2).
    exists (used1 ++ used2). split.
    + by apply (sublist_app used1 [c1] used2 [c2]).
    + by rewrite Hd2, Hd1, app_assoc.
  - injection Hstep as <-. apply onViewportCallback_delivered.
  - injection Hstep as <-. by apply fireEach_delivered.
  - injection Hstep as <-. by apply fireEach_delivered.
  - injection Hstep as <-. apply send_delivered.
  - destruct (timers (env w) !! h) as [due|]; [|discriminate].
    destruct (due <=? now (env w)); [|discriminate].
    injection Hstep as <-. exists []. split; [done|].
    by rewrite app_nil_r, flush_delivered.
  - injection Hstep as <-. exists []. split; [done|]. by rewrite app_nil_r.
Qed.

Lemma run_delivered trace : forall w w',
  subscribed w -> run trace w = Some w' ->
  exists used,
    sublist used (flat_map handed trace) /\ delivered w' = delivered w ++ used.
Proof.
  induction trace as [|ev rest IH]; intros w w' Hsub Hrun.
  - cbn in Hrun. injection Hrun as <-. exists []. split; [done|by rewrite app_nil_r].
  - cbn [run] in Hrun. destruct (step ev w) as [w1|] eqn:Hs; [|discriminate].
    destruct (step_delivered _ _ _ Hsub Hs) as (used1 & Hs1 & Hd1).
    destruct (IH w1 w' (step_subscribed _ _ _ Hsub Hs) Hrun) as (used2 & Hs2 & Hd2).
    exists (used1 ++ used2). split.
    + cbn [flat_map]. by apply sublist_app.
    + by rewrite Hd2, Hd1, app_assoc.
Qed.

(** *** The timer and the pace of the messages *)

Lemma pacedAt_post ms clock nt pending m' :
  pacedAt ms clock 0 pending -> sentAt m' = clock ->
  pacedAt (ms ++ [m']) clock (Z.pos nt) (<[nt := clock + 100]> pending).
Proof.
  intros (Hadj & Hpast & Hsp & Hstate) Ht.
  destruct Hstate as [(_ & -> & Hidle)|(h & i & m & Hh & _)]; [|discriminate].
  unfold pacedAt. split; [|split; [|split]].
  - intros i a b Ha Hb.
    destruct (decide (S i < length ms)%nat) as [Hlt|Hge].
    + rewrite lookup_app_l in Ha, Hb by lia. by apply (Hadj i).
    + pose proof (lookup_lt_Some _ _ _ Hb) as Hl. rewrite length_app in Hl. cbn in Hl.
      rewrite lookup_app_l in Ha by lia.
      rewrite lookup_app_r in Hb by lia.
      replace (S i - length ms)%nat with 0%nat in Hb by lia.
      cbn in Hb. injection Hb as <-. rewrite Ht. by apply (Hpast i).
  - intros i m Hm.
    destruct (decide (i < length ms)%nat) as [Hlt|Hge].
    + rewrite lookup_app_l in Hm by lia. by apply (Hpast i).
    + pose proof (lookup_lt_Some _ _ _ Hm) as Hl. rewrite length_app in Hl. cbn in Hl.
      rewrite lookup_app_r in Hm by lia.
      replace (i - length ms)%nat with 0%nat in Hm by lia.
      cbn in Hm. injection Hm as <-. lia.
  - intros i a c Ha Hc.
    destruct (decide (S (S i) < length ms)%nat) as [Hlt|Hge].
    + rewrite lookup_app_l in Ha, Hc by lia. by apply (Hsp i).
    + pose proof (lookup_lt_Some _ _ _ Hc) as Hl. rewrite length_app in Hl. cbn in Hl.
      rewrite lookup_app_l in Ha by lia.
      rewrite lookup_app_r in Hc by lia.
      replace (S (S i) - length ms)%nat with 0%nat in Hc by lia.
      cbn in Hc. injection Hc as <-. rewrite Ht. apply (Hidle i); [done|lia].
  - right. exists nt, (length ms), m'. split; [done|]. split.
    + rewrite Ht. apply insert_empty.
    + split; [|rewrite length_app; cbn; lia].
      rewrite lookup_app_r by lia. by rewrite Nat.sub_diag.
Qed.

Lemma pacedAt_due ms clock handle pending h due :
  pacedAt ms clock handle pending -> pending !! h = Some due ->
  handle = Z.pos h /\ delete h pending = ∅ /\
  exists i m, ms !! i = Some m /\ length ms = S i /\ due = sentAt m + 100.
Proof.
  intros (_ & _ & _ & Hstate) Hh.
  destruct Hstate as [(_ & -> & _)|(h0 & i & m & -> & -> & Hm & Hlen)].
  - by rewrite lookup_empty in Hh.
  - apply lookup_singleton_Some in Hh as [<- <-].
    split; [done|]. split; [apply delete_singleton_eq|]. by exists i, m.
Qed.

Lemma pacedAt_fired ms clock handle pending h due :
  pacedAt ms clock handle pending -> pending !! h = Some due -> due <= clock ->
  pacedAt ms clock 0 (delete h pending).
Proof.
  intros Hp Hh Hdue. destruct (pacedAt_due _ _ _ _ _ _ Hp Hh)
    as (_ & Hdel & i & m & Hm & Hlen & ->).
  destruct Hp as (Hadj & Hpast & Hsp & _).
  unfold pacedAt. repeat split; try done.
  left. repeat split; try done.
  intros j a Ha Hl. assert (i = S j) as -> by lia.
  pose proof (Hadj j a m Ha Hm). lia.
Qed.

Lemma pacedAt_fired_post ms clock handle pending h due m' :
  pacedAt ms clock handle pending -> pending !! h = Some due -> due <= clock ->
  sentAt m' = clock ->
  pacedAt (ms ++ [m']) clock 0 (delete h pending).
Proof.
  intros Hp Hh Hdue Ht. destruct (pacedAt_due _ _ _ _ _ _ Hp Hh)
    as (_ & Hdel & i & m & Hm & Hlen & ->).
  destruct Hp as (Hadj & Hpast & Hsp & _).
  unfold pacedAt. split; [|split; [|split]].
  - intros j a b Ha Hb.
    destruct (decide (S j < length ms)%nat) as [Hlt|Hge].
    + rewrite lookup_app_l in Ha, Hb by lia. by apply (Hadj j).
    + pose proof (lookup_lt_Some _ _ _ Hb) as Hl. rewrite length_app in Hl. cbn in Hl.
      rewrite lookup_app_l in Ha by lia.
      rewrite lookup_app_r in Hb by lia.
      replace (S j - length ms)%nat with 0%nat in Hb by lia.
      cbn in Hb. injection Hb as <-. rewrite Ht. by apply (Hpast j).
  - intros j a Ha.
    destruct (decide (j < length ms)%nat) as [Hlt|Hge].
    + rewrite lookup_app_l in Ha by lia. by apply (Hpast j).
    + pose proof (lookup_lt_Some _ _ _ Ha) as Hl. rewrite length_app in Hl. cbn in Hl.
      rewrite lookup_app_r in Ha by lia.
      replace (j - length ms)%nat with 0%nat in Ha by lia.
      cbn in Ha. injection Ha as <-. lia.
  - intros j a c Ha Hc.
    destruct (decide (S (S j) < length ms)%nat) as [Hlt|Hge].
    + rewrite lookup_app_l in Ha, Hc by lia. by apply (Hsp j).
    + pose proof (lookup_lt_Some _ _ _ Hc) as Hl. rewrite length_app in Hl. cbn in Hl.
      rewrite lookup_app_l in Ha by lia.
      rewrite lookup_app_r in Hc by lia.
      replace (S (S j) - length ms)%nat with 0%nat in Hc by lia.
      cbn in Hc. injection Hc as <-. rewrite Ht.
      assert (i = S j) as -> by lia.
      pose proof (Hadj j a m Ha Hm). lia.
  - left. split; [done|]. split; [done|].
    intros j a Ha Hl. rewrite length_app in Hl. cbn in Hl.
    assert (j = i) as -> by lia.
    rewrite lookup_app_l in Ha by lia. rewrite Hm in Ha. injection Ha as <-. lia.
Qed.

Lemma pacedAt_tick ms clock handle pending d :
  pacedAt ms clock handle pending -> 0 <= d ->
  pacedAt ms (clock + d) handle pending.
Proof.
  intros (Hadj & Hpast & Hsp & Hstate) Hd.
  unfold pacedAt. repeat split; try done.
  - intros i m Hm. pose proof (Hpast i m Hm). lia.
  - destruct Hstate as [(H1 & H2 & Hidle)|Harmed]; [|by right].
    left. repeat split; try done.
    intros i m Hm Hl. pose proof (Hidle i m Hm Hl). lia.
Qed.

Lemma sameTraffic_paced w w' : sameTraffic w w' -> paced w -> paced w'.
Proof.
  intros (_ & _ & _ & _ & H5 & H6 & H7 & _ & _ & H10).
  unfold paced. by rewrite H5, H6, H7, H10.
Qed.

Lemma send_paced c w : paced w -> paced (sendElementIntersection_ c w).
Proof.
  intros Hp. unfold sendElementIntersection_.
  destruct (negb _); [exact Hp|].
  destruct (sameTimeAsLast _ _); [exact Hp|].
  cbn. destruct (flushTimeout_ (this w) =? 0) eqn:Hf; [|exact Hp].
  apply Z.eqb_eq in Hf. unfold flush_. cbn.
  destruct (length (pendingChanges_ (this w) ++ [c]) =? 0)%nat eqn:Hlen.
  { rewrite length_app in Hlen. cbn in Hlen. apply Nat.eqb_eq in Hlen. lia. }
  unfold paced in *. cbn. rewrite Hf in Hp. by apply pacedAt_post.
Qed.

Lemma onViewportCallback_paced inViewport c w :
  paced w -> paced (onViewportCallback inViewport c w).
Proof.
  intros Hp. eapply sameTraffic_paced; [apply onViewportCallback_traffic|].
  destruct (Bool.eqb _ _); [done|by apply send_paced].
Qed.

Lemma step_paced ev w w' : paced w -> step ev w = Some w' -> paced w'.
Proof.
  intros Hp Hstep. destruct ev; cbn [step] in Hstep.
  - injection Hstep as <-.
    unfold onSendIntersections, startSendingIntersectionChanges_, paced.
    by destruct (negb _).
  - destruct (0 <? measures (env w))%nat; [|discriminate].
    injection Hstep as <-. unfold measureCallback, fire.
    apply send_paced.
    assert (H0 : paced (set_env (vsync_take (env w)) w)) by exact Hp.
    destruct isInViewport; [|done]. by apply onViewportCallback_paced.
  - injection Hstep as <-. by apply onViewportCallback_paced.
  - injection Hstep as <-.
    apply fireEach_preserves; [intros ?; apply send_paced|done].
  - injection Hstep as <-.
    apply fireEach_preserves; [intros ?; apply send_paced|done].
  - injection Hstep as <-. by apply send_paced.
  - destruct (timers (env w) !! h) as [due|] eqn:Hh; [|discriminate].
    destruct (due <=? now (env w)) eqn:Hdue; [|discriminate].
    injection Hstep as <-. apply Z.leb_le in Hdue.
    unfold flush_, paced in *. cbn.
    destruct (length (pendingChanges_ (this w)) =? 0)%nat; cbn.
    + by apply (pacedAt_fired _ _ (flushTimeout_ (this w)) _ h due).
    + by apply (pacedAt_fired_post _ _ (flushTimeout_ (this w)) _ h due).
  - injection Hstep as <-. unfold paced in *. cbn. apply pacedAt_tick; [done|lia].
Qed.

Lemma constructor_paced opt_is3p : paced (constructor opt_is3p).
Proof.
  unfold paced, pacedAt. cbn. repeat split; try done.
  left. repeat split; done.
Qed.

Lemma run_paced opt_is3p trace w :
  run trace (constructor opt_is3p) = Some w -> paced w.
Proof.
  intros Hrun.
  eapply (run_invariant paced (fun _ => true));
    [|apply forallb_all|apply (constructor_paced opt_is3p)|exact Hrun].
  intros ev w1 w2 _. apply step_paced.
Qed.

(** *** The messages posted *)

Lemma sameTraffic_wellPosted w w' : sameTraffic w w' -> wellPosted w -> wellPosted w'.
Proof.
  intros (H1 & H2 & H3 & _ & _ & _ & _ & _ & _ & H10).
  unfold wellPosted. by rewrite H1, H2, H3, H10.
Qed.

Lemma wellPosted_post w payload :
  wellPosted w -> payload <> [] ->
  shouldSendIntersectionChanges_ (this w) = true ->
  Forall (fun m => name m = "intersection" /\ changes m <> [] /\ targets m <> [] /\
                   is3P m = is3p_ (this w) /\
                   targets m `prefix_of` clientWindows_ (this w))
         (posted (env w)
          ++ [{| targets := clientWindows_ (this w); name := "intersection";
                 changes := payload; is3P := is3p_ (this w);
                 sentAt := now (env w) |}]).
Proof.
  intros [Hall Hcw] Hne Hflag. apply Forall_app. split; [exact Hall|].
  apply Forall_singleton. cbn. repeat split; try done. by apply Hcw.
Qed.

Lemma flush_wellPosted w : consistent w -> wellPosted w -> wellPosted (flush_ w).
Proof.
  intros [Hq Hs] Hwp. unfold flush_. cbn.
  destruct (pendingChanges_ (this w)) as [|e q] eqn:Hp; cbn; [exact Hwp|].
  assert (Hflag : shouldSendIntersectionChanges_ (this w) = true).
  { destruct (shouldSendIntersectionChanges_ (this w)) eqn:Hfl; [done|].
    pose proof (Hq (Hs eq_refl)) as Hcontra. congruence. }
  split; [|apply Hwp]. cbn. by apply (wellPosted_post w (e :: q)).
Qed.

Lemma send_wellPosted c w : wellPosted w -> wellPosted (sendElementIntersection_ c w).
Proof.
  intros Hwp. unfold sendElementIntersection_.
  destruct (shouldSendIntersectionChanges_ (this w)) eqn:Hflag; [|exact Hwp].
  cbn [negb]. destruct (sameTimeAsLast _ _); [exact Hwp|].
  cbn. destruct (flushTimeout_ (this w) =? 0); [|exact Hwp].
  unfold flush_. cbn.
  destruct (length (pendingChanges_ (this w) ++ [c]) =? 0)%nat eqn:Hlen.
  { rewrite length_app in Hlen. cbn in Hlen. apply Nat.eqb_eq in Hlen. lia. }
  split; [|apply Hwp]. cbn.
  apply (wellPosted_post w (pendingChanges_ (this w) ++ [c])); [done| |done].
  by destruct (pendingChanges_ (this w)).
Qed.

Lemma onViewportCallback_wellPosted inViewport c w :
  wellPosted w -> wellPosted (onViewportCallback inViewport c w).
Proof.
  intros H. eapply sameTraffic_wellPosted; [apply onViewportCallback_traffic|].
  destruct (Bool.eqb _ _); [done|by apply send_wellPosted].
Qed.

Lemma register_nonempty source org (clients : list ClientWindow) :
  register source org clients <> [].
Proof.
  unfold register. destruct (existsb _ clients) eqn:Hex; cbn [negb].
  - by destruct clients.
  - by destruct clients.
Qed.

Lemma register_prefix source org (clients : list ClientWindow) :
  clients `prefix_of` register source org clients.
Proof.
  unfold register. destruct (negb _); [by apply prefix_app_r|done].
Qed.

Lemma onSendIntersections_wellPosted source org w :
  wellPosted w -> wellPosted (onSendIntersections source org w).
Proof.
  intros [Hall _]. unfold wellPosted.
  rewrite onSendIntersections_clients. split.
  - assert (Heq : posted (env (onSendIntersections source org w)) = posted (env w)
                  /\ is3p_ (this (onSendIntersections source org w)) = is3p_ (this w)).
    { unfold onSendIntersections, startSendingIntersectionChanges_.
      by destruct (negb _). }
    destruct Heq as [-> ->].
    eapply Forall_impl; [exact Hall|].
    intros m (H1 & H2 & H3 & H4 & H5). repeat split; try done.
    etrans; [exact H5|apply register_prefix].
  - intros _. apply register_nonempty.
Qed.

Lemma step_sound ev w w' :
  consistent w /\ wellPosted w -> step ev w = Some w' ->
  consistent w' /\ wellPosted w'.
Proof.
  intros [Hc Hwp] Hstep. split; [by apply (step_consistent ev w)|].
  destruct ev; cbn [step] in Hstep.
  - injection Hstep as <-. by apply onSendIntersections_wellPosted.
  - destruct (0 <? measures (env w))%nat; [|discriminate].
    injection Hstep as <-. unfold measureCallback, fire.
    apply send_wellPosted.
    assert (H0 : wellPosted (set_env (vsync_take (env w)) w)) by exact Hwp.
    destruct isInViewport; [|done]. by apply onViewportCallback_wellPosted.
  - injection Hstep as <-. by apply onViewportCallback_wellPosted.
  - injection Hstep as <-.
    apply fireEach_preserves; [intros ?; apply send_wellPosted|done].
  - injection Hstep as <-.
    apply fireEach_preserves; [intros ?; apply send_wellPosted|done].
  - injection Hstep as <-. by apply send_wellPosted.
  - destruct (timers (env w) !! h) as [due|]; [|discriminate].
    destruct (due <=? now (env w)); [|discriminate].
    injection Hstep as <-. by apply flush_wellPosted.
  - by injection Hstep as <-.
Qed.

Lemma run_sound opt_is3p trace w :
  run trace (constructor opt_is3p) = Some w -> consistent w /\ wellPosted w.
Proof.
  intros Hrun.
  eapply (run_invariant (fun w => consistent w /\ wellPosted w) (fun _ => true));
    [|apply forallb_all| |exact Hrun].
  - intros ev w1 w2 _. apply step_sound.
  - split; [by unfold consistent|]. unfold wellPosted. cbn. split; [constructor|done].
Qed.

(** *** What a call of [sendElementIntersection_] leaves behind *)

(** On an observer whose flag is on, after the call either records wait in
    the queue behind a timer and nothing was posted, or the change was
    posted at once, alone or behind what was queued. *)
Lemma send_outcome c w :
  shouldSendIntersectionChanges_ (this w) = true -> consistent w ->
  let w' := sendElementIntersection_ c w in
  flushTimeout_ (this w') <> 0 /\
  clientWindows_ (this w') = clientWindows_ (this w) /\
  now (env w') = now (env w) /\
  ((pendingChanges_ (this w') <> [] /\ posted (env w') = posted (env w)) \/
   (pendingChanges_ (this w') = [] /\
    posted (env w') = posted (env w) ++ [intersectionMessage w [c] (now (env w))])).
Proof.
  intros Hflag [Hq _]. cbv zeta. unfold sendElementIntersection_.
  rewrite Hflag. cbn [negb].
  destruct (sameTimeAsLast (pendingChanges_ (this w)) c) eqn:Hdup.
  - assert (Hne : pendingChanges_ (this w) <> []).
    { intros Hp. by rewrite Hp in Hdup. }
    repeat split; try done.
    + intros Hf. by apply Hne, Hq.
    + by left.
  - cbn. destruct (flushTimeout_ (this w) =? 0) eqn:Hf.
    + apply Z.eqb_eq in Hf. pose proof (Hq Hf) as Hp.
      unfold flush_. cbn. rewrite Hp. cbn. repeat split; try done. by right.
    + apply Z.eqb_neq in Hf. cbn. repeat split; try done.
      left. split; [|done]. by destruct (pendingChanges_ (this w)).
Qed.

Lemma register_member source org (clients : list ClientWindow) :
  source ∈ map win (register source org clients).
Proof.
  unfold register. destruct (existsb _ clients) eqn:Hex; cbn [negb].
  - by apply existsb_win.
  - rewrite map_app. apply elem_of_app. right. by apply list_elem_of_singleton.
Qed.

(** *** One message at most *)

Lemma once_refl w : once w w.
Proof. unfold once. repeat split; try done. by left. Qed.

Lemma sameTraffic_once w1 w2 w3 : once w1 w2 -> sameTraffic w2 w3 -> once w1 w3.
Proof.
  intros (A1 & A2 & A3) (H1 & _ & _ & _ & H5 & H6 & _ & _ & _ & H10).
  unfold once. by rewrite H1, H5, H6, H10.
Qed.

Lemma send_once c w : once w (sendElementIntersection_ c w).
Proof.
  unfold sendElementIntersection_.
  destruct (negb _); [apply once_refl|].
  destruct (sameTimeAsLast _ _); [apply once_refl|].
  cbn. destruct (flushTimeout_ (this w) =? 0).
  - unfold flush_. cbn.
    destruct (length (pendingChanges_ (this w) ++ [c]) =? 0)%nat eqn:Hlen.
    { rewrite length_app in Hlen. cbn in Hlen. apply Nat.eqb_eq in Hlen. lia. }
    unfold once. cbn. repeat split; try done. right. eexists. split; [reflexivity|].
    cbn. repeat split; try done. by destruct (pendingChanges_ (this w)).
  - unfold once. cbn. repeat split; try done. by left.
Qed.

(** After a message was posted, a further call posts nothing. *)
Lemma once_then_send c w w1 :
  once w w1 -> once w (sendElementIntersection_ c w1).
Proof.
  intros (A1 & A2 & [A3|(m & A3 & A4 & A5 & A6 & A7)]).
  - destruct (send_once c w1) as (B1 & B2 & B3).
    unfold once. rewrite B1, B2, A1, A2. repeat split; try done.
    destruct B3 as [B3|(m & B3 & B4 & B5 & B6 & B7)].
    + left. by rewrite B3.
    + right. exists m. by rewrite B3, B4, B5, A1, A2, A3.
  - destruct (send_held c w1 A7) as [B1 B2].
    destruct (send_frame c w1) as [(C1 & _ & _ & C4 & _) _].
    unfold once. rewrite C1, C4, A1, A2. repeat split; try done.
    right. exists m. rewrite B1, B2. done.
Qed.

Lemma once_then_onViewportCallback inViewport c w w1 :
  once w w1 -> once w (onViewportCallback inViewport c w1).
Proof.
  intros H. eapply sameTraffic_once; [|apply onViewportCallback_traffic].
  destruct (Bool.eqb _ _); [done|by apply once_then_send].
Qed.

Lemma once_then_fireEach handlers c w : forall w1,
  once w w1 -> once w (fireEach handlers c w1).
Proof.
  unfold fireEach. induction handlers as [|s rest IH]; intros w1 H; [done|].
  cbn. apply IH. by apply once_then_send.
Qed.

End Keeping.

(** X1: over any run the observer only grows: the flag, once set, stays
    set; client windows are only appended, never removed or reordered;
    messages posted are never taken back; the 3p flag stays what it was; and
    the clock does not go back. *)
Theorem observer_only_grows (trace : list Event) (w w' : World) :
  run trace w = Some w' ->
  (shouldSendIntersectionChanges_ (this w) = true ->
   shouldSendIntersectionChanges_ (this w') = true) /\
  clientWindows_ (this w) `prefix_of` clientWindows_ (this w') /\
  posted (env w) `prefix_of` posted (env w') /\
  is3p_ (this w') = is3p_ (this w) /\
  now (env w) <= now (env w').
Proof. intros Hrun. by apply (run_grows trace). Qed.

Lemma observer_only_grows_witness :
  run windowOfThree activated = Some afterWindow /\
  (shouldSendIntersectionChanges_ (this activated) = true ->
   shouldSendIntersectionChanges_ (this afterWindow) = true) /\
  clientWindows_ (this activated) `prefix_of` clientWindows_ (this afterWindow) /\
  posted (env activated) `prefix_of` posted (env afterWindow) /\
  is3p_ (this afterWindow) = is3p_ (this activated) /\
  now (env activated) <= now (env afterWindow).
Proof.
  assert (H0 : run windowOfThree activated = Some afterWindow)
    by (vm_compute; reflexivity).
  exact (conj H0 (observer_only_grows windowOfThree activated afterWindow H0)).
Defined.

(** X2: in every world a run reaches at most one timer of the observer is
    pending: either [flushTimeout_] is 0 and none is pending, or
    [flushTimeout_] is the handle of the one pending timer.  So the only
    timer that can fire is the one [flushTimeout_] names, and when it has
    fired the handle is 0, no timer is pending and the queue is empty. *)
Theorem one_timer_outstanding
    (opt_is3p : bool) (trace : list Event) (w : World) :
  run trace (constructor opt_is3p) = Some w ->
  ((flushTimeout_ (this w) = 0 /\ timers (env w) = ∅) \/
   (exists h due, flushTimeout_ (this w) = Z.pos h /\ timers (env w) = {[h := due]})) /\
  (forall h w', step (TimerFire h) w = Some w' ->
     flushTimeout_ (this w) = Z.pos h /\
     flushTimeout_ (this w') = 0 /\
     timers (env w') = ∅ /\
     pendingChanges_ (this w') = []).
Proof.
  intros Hrun. pose proof (run_paced _ _ _ Hrun) as Hp. split.
  - destruct Hp as (_ & _ & _ & [(H1 & H2 & _)|(h & i & m & H1 & H2 & _)]).
    + by left.
    + right. by exists h, (sentAt m + 100).
  - intros h w' Hstep. cbn [step] in Hstep.
    destruct (timers (env w) !! h) as [due|] eqn:Hh; [|discriminate].
    destruct (due <=? now (env w)); [|discriminate].
    injection Hstep as <-.
    destruct (pacedAt_due _ _ _ _ _ _ Hp Hh) as (Hft & Hdel & _).
    split; [exact Hft|]. unfold flush_. cbn.
    destruct (pendingChanges_ (this w)) as [|e q] eqn:Hq; cbn; rewrite ?Hq; done.
Qed.

Lemma one_timer_outstanding_witness :
  run inOrder (constructor false) = Some queued /\
  ((flushTimeout_ (this queued) = 0 /\ timers (env queued) = ∅) \/
   (exists h due, flushTimeout_ (this queued) = Z.pos h
                  /\ timers (env queued) = {[h := due]})) /\
  (forall h w', step (TimerFire h) queued = Some w' ->
     flushTimeout_ (this queued) = Z.pos h /\
     flushTimeout_ (this w') = 0 /\
     timers (env w') = ∅ /\
     pendingChanges_ (this w') = []).
Proof.
  assert (H0 : run inOrder (constructor false) = Some queued)
    by (vm_compute; reflexivity).
  exact (conj H0 (one_timer_outstanding false inOrder queued H0)).
Defined.

(** X3: in every world a run reaches, the messages were posted in the order
    of their times, and every message was posted at least 100 ms after the
    message two before it: no three messages fall within less than
    100 ms. *)
Theorem three_messages_span_100ms
    (opt_is3p : bool) (trace : list Event) (w : World) :
  run trace (constructor opt_is3p) = Some w ->
  (forall i a b, posted (env w) !! i = Some a -> posted (env w) !! S i = Some b ->
     sentAt a <= sentAt b) /\
  (forall i a c, posted (env w) !! i = Some a -> posted (env w) !! S (S i) = Some c ->
     sentAt a + 100 <= sentAt c).
Proof.
  intros Hrun. destruct (run_paced _ _ _ Hrun) as (Hadj & _ & Hsp & _). by split.
Qed.

Lemma three_messages_span_100ms_witness :
  run rush (constructor false) = Some afterRush /\
  (forall i a b, posted (env afterRush) !! i = Some a ->
     posted (env afterRush) !! S i = Some b -> sentAt a <= sentAt b) /\
  (forall i a c, posted (env afterRush) !! i = Some a ->
     posted (env afterRush) !! S (S i) = Some c -> sentAt a + 100 <= sentAt c).
Proof.
  assert (H0 : run rush (constructor false) = Some afterRush)
    by (vm_compute; reflexivity).
  exact (conj H0 (three_messages_span_100ms false rush afterRush H0)).
Defined.

(** X4: every message a run posts is an 'intersection' message that carries
    at least one record, goes to at least one window, has the 3p flag the
    constructor got, and went to windows that are client windows still, in
    the order they registered. *)
Theorem posted_messages_well_formed
    (opt_is3p : bool) (trace : list Event) (w : World) (m : Message) :
  run trace (constructor opt_is3p) = Some w ->
  m ∈ posted (env w) ->
  name m = "intersection" /\
  changes m <> [] /\
  targets m <> [] /\
  is3P m = opt_is3p /\
  targets m `prefix_of` clientWindows_ (this w).
Proof.
  intros Hrun Hin. destruct (run_sound _ _ _ Hrun) as [_ [Hall _]].
  destruct (run_grows _ _ _ Hrun) as (_ & _ & _ & H3p & _). cbn in H3p.
  rewrite Forall_forall in Hall.
  destruct (Hall m Hin) as (H1 & H2 & H3 & H4 & H5).
  repeat split; try done. by rewrite H4.
Qed.

Lemma posted_messages_well_formed_witness :
  run rush (constructor false) = Some afterRush /\
  intersectionMessage afterRush [entryAt 201] 201 ∈ posted (env afterRush) /\
  name (intersectionMessage afterRush [entryAt 201] 201) = "intersection" /\
  changes (intersectionMessage afterRush [entryAt 201] 201) <> [] /\
  targets (intersectionMessage afterRush [entryAt 201] 201) <> [] /\
  is3P (intersectionMessage afterRush [entryAt 201] 201) = false /\
  targets (intersectionMessage afterRush [entryAt 201] 201)
    `prefix_of` clientWindows_ (this afterRush).
Proof.
  assert (H0 : run rush (constructor false) = Some afterRush)
    by (vm_compute; reflexivity).
  assert (H1 : intersectionMessage afterRush [entryAt 201] 201 ∈ posted (env afterRush)).
  { apply (list_elem_of_lookup_2 _ 3). vm_compute. reflexivity. }
  exact (conj H0 (conj H1
    (posted_messages_well_formed false rush afterRush _ H0 H1))).
Defined.

(** X5: while a timer is outstanding, nothing but the timer posts a message:
    over any events other than a timer firing (new windows asking, measure
    callbacks, viewport callbacks, scroll and changed events, [fire] calls,
    time passing) the messages posted stay as they are and the timer stays
    outstanding. *)
Theorem nothing_posted_before_the_timer
    (trace : list Event) (w w' : World) :
  flushTimeout_ (this w) <> 0 ->
  forallb (fun ev => negb (isTimerFire ev)) trace = true ->
  run trace w = Some w' ->
  posted (env w') = posted (env w) /\
  flushTimeout_ (this w') = flushTimeout_ (this w).
Proof. intros Hf Hall Hrun. by apply (run_held trace). Qed.

Lemma nothing_posted_before_the_timer_witness :
  flushTimeout_ (this queued) <> 0 /\
  forallb (fun ev => negb (isTimerFire ev)) busy = true /\
  run busy queued = Some afterBusy /\
  posted (env afterBusy) = posted (env queued) /\
  flushTimeout_ (this afterBusy) = flushTimeout_ (this queued).
Proof.
  assert (H1 : flushTimeout_ (this queued) <> 0) by (vm_compute; discriminate).
  assert (H2 : forallb (fun ev => negb (isTimerFire ev)) busy = true) by reflexivity.
  assert (H3 : run busy queued = Some afterBusy) by (vm_compute; reflexivity).
  exact (conj H1 (conj H2 (conj H3
    (nothing_posted_before_the_timer busy queued afterBusy H1 H2 H3)))).
Defined.

(** X6: a viewport callback leaves [inViewport_] at the value it was called
    with, and a second callback with the same value does nothing, whatever
    change the element would hand out: no record, no message, no second
    subscription and no second release. *)
Theorem onViewportCallback_repeated
    (inViewport : bool) (c c' : IntersectionObserverEntry) (w : World) :
  inViewport_ (this (onViewportCallback inViewport c w)) = inViewport /\
  onViewportCallback inViewport c' (onViewportCallback inViewport c w)
  = onViewportCallback inViewport c w.
Proof.
  pose proof (onViewportCallback_inViewport inViewport c w) as Hi.
  split; [exact Hi|].
  unfold onViewportCallback at 1. rewrite Hi.
  by destruct inViewport.
Qed.

(** X7: the records of the messages posted, in the order posted, followed by
    the records still queued, are a subsequence of the change entries the
    element handed out during the run, in the order handed out: no record
    is invented, sent twice or sent out of order; and [flush_] moves the
    queue into a message without losing or adding a record. *)
Theorem records_in_order_handed_out
    (opt_is3p : bool) (trace : list Event) (w : World) :
  run trace (constructor opt_is3p) = Some w ->
  sublist (delivered w) (flat_map handed trace) /\
  delivered (flush_ w) = delivered w.
Proof.
  intros Hrun. split; [|apply flush_delivered].
  destruct (run_delivered trace _ _ (constructor_subscribed opt_is3p) Hrun)
    as (used & Hsub & Hd).
  by rewrite Hd.
Qed.

Lemma records_in_order_handed_out_witness :
  run rush (constructor false) = Some afterRush /\
  sublist (delivered afterRush) (flat_map handed rush) /\
  delivered (flush_ afterRush) = delivered afterRush.
Proof.
  assert (H0 : run rush (constructor false) = Some afterRush)
    by (vm_compute; reflexivity).
  exact (conj H0 (records_in_order_handed_out false rush afterRush H0)).
Defined.

(** X8: the entry [getIntersectionChangeEntry] returns has the measure time
    it was given, its [rootBounds] is the very object passed in, and each of
    its three rectangles has [x] equal to its [left] and [y] equal to its
    [top]. *)
Theorem entry_rectangles_have_x_and_y
    (t : Z) (rb el : positive) (σ : gmap positive LayoutRectDef)
    (R E : LayoutRectDef) :
  σ !! rb = Some R -> σ !! el = Some E ->
  0 <= width E -> 0 <= height E ->
  exists entry σ',
    getIntersectionChangeEntry t rb el σ = (Normal entry, σ') /\
    time entry = t /\
    rootBounds entry = rb /\
    forall r,
      r ∈ [rootBounds entry; boundingClientRect entry; intersectionRect entry] ->
      exists o, σ' !! r = Some o /\ x o = Some (left o) /\ y o = Some (top o).
Proof.
  intros HR HE Hw Hh.
  pose proof (getIntersectionChangeEntry_run t rb el σ R E HR HE) as Hrun.
  cbv zeta in Hrun.
  assert (Hc : (0 <=? width E) && (0 <=? height E) = true).
  { apply andb_true_intro. split; by apply Z.leb_le. }
  rewrite Hc in Hrun.
  eexists _, _. split; [exact Hrun|]. cbn [time rootBounds boundingClientRect intersectionRect].
  split; [done|]. split; [done|].
  set (σ1 := <[rb := withXY R]> σ) in *.
  set (b := fresh (dom σ1)) in *.
  set (B := translate E (-1 * left R) (-1 * top R)) in *.
  set (σ2 := <[b := withXY B]> σ1) in *.
  set (i := fresh (dom σ2)) in *.
  assert (H1 : σ1 !! rb = Some (withXY R)) by apply lookup_insert_eq.
  assert (H2 : σ2 !! b = Some (withXY B)) by apply lookup_insert_eq.
  assert (H3 : σ2 !! rb = Some (withXY R)).
  { unfold σ2. rewrite lookup_insert_ne; [done|].
    apply not_eq_sym, (fresh_ne _ _ _ H1). }
  intros r Hr. apply list_elem_of_In in Hr. cbn in Hr.
  destruct Hr as [<-|[<-|[<-|[]]]].
  - exists (withXY R). split; [|done].
    rewrite lookup_insert_ne; [done|]. apply not_eq_sym, (fresh_ne _ _ _ H3).
  - exists (withXY B). split; [|done].
    rewrite lookup_insert_ne; [done|]. apply not_eq_sym, (fresh_ne _ _ _ H2).
  - eexists. split; [apply lookup_insert_eq|done].
Qed.

Lemma entry_rectangles_have_x_and_y_witness :
  sampleStore !! 1%positive = Some viewportRect /\
  sampleStore !! 3%positive = Some farRect /\
  0 <= width farRect /\ 0 <= height farRect /\
  exists entry σ',
    getIntersectionChangeEntry 7 1 3 sampleStore = (Normal entry, σ') /\
    time entry = 7 /\
    rootBounds entry = 1%positive /\
    forall r,
      r ∈ [rootBounds entry; boundingClientRect entry; intersectionRect entry] ->
      exists o, σ' !! r = Some o /\ x o = Some (left o) /\ y o = Some (top o).
Proof.
  assert (H1 : sampleStore !! 1%positive = Some viewportRect) by (vm_compute; reflexivity).
  assert (H2 : sampleStore !! 3%positive = Some farRect) by (vm_compute; reflexivity).
  assert (H3 : 0 <= width farRect) by (simpl; lia).
  assert (H4 : 0 <= height farRect) by (simpl; lia).
  exact (conj H1 (conj H2 (conj H3 (conj H4
    (entry_rectangles_have_x_and_y 7 1 3 sampleStore _ _ H1 H2 H3 H4))))).
Defined.

(** X9: whenever a window asks for intersections and the measure callback
    has run, the window is a client window and a record is on its way to
    it: either a message carrying the callback's record was just posted to
    it, or records wait in the queue behind the one pending timer, and when
    that timer fires they are posted, in one message, to the client windows,
    the new one among them.  This holds whether or not the window had asked
    before, and whatever the viewport state. *)
Theorem handshake_gets_a_record
    (opt_is3p : bool) (trace : list Event) (w : World)
    (source : nat) (org : string) (isInViewport : bool)
    (changeInView changeFire : IntersectionObserverEntry) :
  run trace (constructor opt_is3p) = Some w ->
  exists w2,
    run [SendIntersections source org; Measure isInViewport changeInView changeFire] w
    = Some w2 /\
    source ∈ map win (clientWindows_ (this w2)) /\
    ((exists before m,
        posted (env w2) = posted (env w) ++ before ++ [m] /\
        source ∈ map win (targets m) /\
        changes m = [changeFire] /\
        sentAt m = now (env w))
     \/
     (exists h due,
        pendingChanges_ (this w2) <> [] /\
        flushTimeout_ (this w2) = Z.pos h /\
        timers (env w2) !! h = Some due /\
        forall dt, due <= now (env w2) + Z.of_N dt ->
          exists w3,
            run [Advance dt; TimerFire h] w2 = Some w3 /\
            posted (env w3)
            = posted (env w2)
              ++ [intersectionMessage w2 (pendingChanges_ (this w2))
                    (now (env w2) + Z.of_N dt)])).
Proof.
  intros Hrun.
  set (w1 := onSendIntersections source org w).
  set (w0 := set_env (vsync_take (env w1)) w1).
  set (X := if isInViewport then onViewportCallback true changeInView w0 else w0).
  set (w2 := sendElementIntersection_ changeFire X).
  assert (Hstep : run [SendIntersections source org;
                       Measure isInViewport changeInView changeFire] w = Some w2).
  { cbn [run step]. fold w1.
    assert (Hm : (0 <? measures (env w1))%nat = true).
    { unfold w1, onSendIntersections, startSendingIntersectionChanges_.
      by destruct (negb _). }
    by rewrite Hm. }
  exists w2. split; [exact Hstep|].
  (* the world in which the callback's own fire runs *)
  assert (Hflag1 : shouldSendIntersectionChanges_ (this w1) = true).
  { unfold w1, onSendIntersections, startSendingIntersectionChanges_.
    by destruct (negb _). }
  assert (Hposted1 : posted (env w1) = posted (env w) /\ now (env w1) = now (env w)).
  { unfold w1, onSendIntersections, startSendingIntersectionChanges_.
    by destruct (negb _). }
  destruct Hposted1 as [Hposted1 Hnow1].
  assert (Hc1 : consistent w1).
  { apply (step_consistent (SendIntersections source org) w);
      [by apply (run_consistent opt_is3p trace)|done]. }
  assert (HX : grows w0 X /\ consistent X /\ sameSetup w0 X).
  { unfold X. destruct isInViewport.
    - split; [apply onViewportCallback_grows|].
      split; [by apply onViewportCallback_consistent|apply onViewportCallback_setup].
    - split; [apply grows_refl|]. split; [exact Hc1|by unfold sameSetup]. }
  destruct HX as ((_ & _ & [before Hbefore0] & _) & HcX & (Hcw0 & _ & Hfl0 & Hnow0 & _)).
  assert (Hbefore : posted (env X) = posted (env w) ++ before).
  { rewrite Hbefore0. f_equal. exact Hposted1. }
  assert (Hfl : shouldSendIntersectionChanges_ (this X) = true).
  { rewrite Hfl0. exact Hflag1. }
  assert (Hnow : now (env X) = now (env w)).
  { rewrite Hnow0. exact Hnow1. }
  assert (Hmem : source ∈ map win (clientWindows_ (this X))).
  { rewrite Hcw0.
    change (clientWindows_ (this w0))
      with (clientWindows_ (this (onSendIntersections source org w))).
    rewrite onSendIntersections_clients. apply register_member. }
  destruct (send_outcome changeFire X Hfl HcX) as (Hft & Hcw2 & Hnow2 & Hcases).
  fold w2 in Hft, Hcw2, Hnow2, Hcases.
  split; [by rewrite Hcw2|].
  destruct Hcases as [[Hq Hp]|[Hq Hp]].
  - right.
    assert (Hreach : run (trace ++ [SendIntersections source org;
                                    Measure isInViewport changeInView changeFire])
                       (constructor opt_is3p) = Some w2).
    { rewrite run_app, Hrun. exact Hstep. }
    pose proof (run_paced _ _ _ Hreach) as (_ & _ & _ & Hstate).
    destruct Hstate as [(H0 & _)|(h & i & m & Hh & Htm & _)]; [done|].
    exists h, (sentAt m + 100). split; [exact Hq|]. split; [exact Hh|].
    split; [rewrite Htm; apply lookup_singleton_eq|].
    intros dt Hdue. cbn [run step]. cbn [env set_env tick timers now].
    rewrite Htm, lookup_singleton_eq.
    apply Z.leb_le in Hdue. rewrite Hdue.
    eexists. split; [reflexivity|].
    unfold flush_. cbn.
    destruct (pendingChanges_ (this w2)) as [|e q]; [done|]. reflexivity.
  - left. exists before, (intersectionMessage X [changeFire] (now (env X))).
    split; [by rewrite Hp, Hbefore, app_assoc|].
    cbn. by rewrite Hnow.
Qed.

Lemma handshake_gets_a_record_witness :
  run inOrder (constructor false) = Some queued /\
  exists w2,
    run [SendIntersections 8 "https://b.test"; Measure true (entryAt 130) (entryAt 130)]
      queued
    = Some w2 /\
    8%nat ∈ map win (clientWindows_ (this w2)) /\
    ((exists before m,
        posted (env w2) = posted (env queued) ++ before ++ [m] /\
        8%nat ∈ map win (targets m) /\
        changes m = [entryAt 130] /\
        sentAt m = now (env queued))
     \/
     (exists h due,
        pendingChanges_ (this w2) <> [] /\
        flushTimeout_ (this w2) = Z.pos h /\
        timers (env w2) !! h = Some due /\
        forall dt, due <= now (env w2) + Z.of_N dt ->
          exists w3,
            run [Advance dt; TimerFire h] w2 = Some w3 /\
            posted (env w3)
            = posted (env w2)
              ++ [intersectionMessage w2 (pendingChanges_ (this w2))
                    (now (env w2) + Z.of_N dt)])).
Proof.
  assert (H0 : run inOrder (constructor false) = Some queued)
    by (vm_compute; reflexivity).
  exact (conj H0
    (handshake_gets_a_record false inOrder queued 8 "https://b.test" true
       (entryAt 130) (entryAt 130) H0)).
Defined.

(** X10: in every world a run reaches, a scroll event and a changed event
    each are one call of [sendElementIntersection_] while the element is in
    the viewport, and nothing at all while it is not. *)
Theorem scroll_reaches_observer_in_viewport_only
    (opt_is3p : bool) (trace : list Event) (w : World)
    (change : IntersectionObserverEntry) :
  run trace (constructor opt_is3p) = Some w ->
  step (Scroll change) w
  = Some (if inViewport_ (this w) then sendElementIntersection_ change w else w) /\
  step (Changed change) w
  = Some (if inViewport_ (this w) then sendElementIntersection_ change w else w).
Proof.
  intros Hrun. destruct (run_subscribed _ _ _ Hrun) as [Hmatch _].
  cbn [step]. unfold fireEach, fire.
  destruct (unlistenViewportChanges_ (this w)) as [[s c]|].
  - destruct Hmatch as (-> & -> & -> & _). done.
  - destruct Hmatch as (-> & -> & ->). done.
Qed.

Lemma scroll_reaches_observer_in_viewport_only_witness :
  run watching (constructor false) = Some watched /\
  step (Scroll (entryAt 140)) watched
  = Some (if inViewport_ (this watched)
          then sendElementIntersection_ (entryAt 140) watched else watched) /\
  step (Changed (entryAt 140)) watched
  = Some (if inViewport_ (this watched)
          then sendElementIntersection_ (entryAt 140) watched else watched).
Proof.
  assert (H0 : run watching (constructor false) = Some watched)
    by (vm_compute; reflexivity).
  exact (conj H0
    (scroll_reaches_observer_in_viewport_only false watching watched (entryAt 140) H0)).
Defined.

(** X11: in a world a run reaches with the flag on and no timer outstanding,
    a single change is posted at once, alone; when nothing follows, the
    timer fires after its 100 ms without posting, and leaves the observer
    with an empty queue and no timer, as it was. *)
Theorem lone_change_posted_at_once
    (opt_is3p : bool) (trace : list Event) (w : World)
    (change : IntersectionObserverEntry) (wait : N) :
  run trace (constructor opt_is3p) = Some w ->
  shouldSendIntersectionChanges_ (this w) = true ->
  flushTimeout_ (this w) = 0 ->
  (100 <= wait)%N ->
  exists w1 w',
    step (Fire change) w = Some w1 /\
    posted (env w1) = posted (env w) ++ [intersectionMessage w [change] (now (env w))] /\
    timers (env w1) = {[nextTimer (env w) := now (env w) + 100]} /\
    run [Advance wait; TimerFire (nextTimer (env w))] w1 = Some w' /\
    posted (env w') = posted (env w1) /\
    pendingChanges_ (this w') = [] /\
    flushTimeout_ (this w') = 0 /\
    timers (env w') = ∅.
Proof.
  intros Hrun Hflag Hft Hwait.
  destruct (run_consistent _ _ _ Hrun) as [Hq _]. pose proof (Hq Hft) as Hp.
  pose proof (run_paced _ _ _ Hrun) as (_ & _ & _ & Hstate).
  destruct Hstate as [(_ & Htm & _)|(h & i & m & Hh & _)]; [|congruence].
  cbn [step run]. unfold fire. rewrite send_immediate by done.
  destruct w as [[cw p3 ss iv pc ft ul] [nw tm nt ms sh ch ns un po]].
  cbn in Hflag, Hft, Hp, Htm. subst ss ft pc tm.
  eexists _, _. split; [reflexivity|]. cbn.
  split; [done|]. split; [done|].
  rewrite lookup_insert_eq.
  assert (Hdue : (nw + 100 <=? nw + Z.of_N wait) = true) by (apply Z.leb_le; lia).
  rewrite Hdue. split; [reflexivity|]. cbn.
  repeat split; try done.
  rewrite delete_insert_eq. apply delete_empty.
Qed.

Lemma lone_change_posted_at_once_witness :
  run activation (constructor false) = Some activated /\
  shouldSendIntersectionChanges_ (this activated) = true /\
  flushTimeout_ (this activated) = 0 /\
  (100 <= 150)%N /\
  exists w1 w',
    step (Fire (entryAt 100)) activated = Some w1 /\
    posted (env w1)
    = posted (env activated)
      ++ [intersectionMessage activated [entryAt 100] (now (env activated))] /\
    timers (env w1) = {[nextTimer (env activated) := now (env activated) + 100]} /\
    run [Advance 150; TimerFire (nextTimer (env activated))] w1 = Some w' /\
    posted (env w') = posted (env w1) /\
    pendingChanges_ (this w') = [] /\
    flushTimeout_ (this w') = 0 /\
    timers (env w') = ∅.
Proof.
  assert (H0 : run activation (constructor false) = Some activated)
    by (vm_compute; reflexivity).
  assert (H1 : shouldSendIntersectionChanges_ (this activated) = true)
    by (vm_compute; reflexivity).
  assert (H2 : flushTimeout_ (this activated) = 0) by (vm_compute; reflexivity).
  assert (H3 : (100 <= 150)%N) by (vm_compute; discriminate).
  exact (conj H0 (conj H1 (conj H2 (conj H3
    (lone_change_posted_at_once false activation activated (entryAt 100) 150 H0 H1 H2 H3))))).
Defined.

(** X12: no event posts more than one message, in any world: an event
    either posts nothing, or posts one message, with at least one record,
    addressed to all the client windows there are after the event, at the
    time of the clock. *)
Theorem one_message_per_event (ev : Event) (w w' : World) :
  step ev w = Some w' ->
  posted (env w') = posted (env w) \/
  exists m,
    posted (env w') = posted (env w) ++ [m] /\
    targets m = clientWindows_ (this w') /\
    sentAt m = now (env w') /\
    changes m <> [].
Proof.
  intros Hstep.
  assert (Hweak : forall w0, once w0 w' ->
            posted (env w0) = posted (env w) ->
            posted (env w') = posted (env w) \/
            exists m, posted (env w') = posted (env w) ++ [m] /\
                      targets m = clientWindows_ (this w') /\
                      sentAt m = now (env w') /\ changes m <> []).
  { intros w0 (A1 & A2 & [A3|(m & A3 & A4 & A5 & A6 & _)]) Hsame.
    - left. by rewrite A3.
    - right. exists m. by rewrite A3, A4, A5, A1, A2, Hsame. }
  destruct ev as [src org|vis c1 c2|vis c|c|c|c|h|dt]; cbn [step] in Hstep.
  - injection Hstep as <-. left.
    unfold onSendIntersections, startSendingIntersectionChanges_.
    by destruct (negb _).
  - destruct (0 <? measures (env w))%nat; [|discriminate].
    injection Hstep as <-. unfold measureCallback, fire.
    set (w0 := set_env (vsync_take (env w)) w).
    apply (Hweak w0); [|done]. apply once_then_send.
    destruct vis; [|apply once_refl].
    apply once_then_onViewportCallback, once_refl.
  - injection Hstep as <-. apply (Hweak w); [|done].
    apply once_then_onViewportCallback, once_refl.
  - injection Hstep as <-. apply (Hweak w); [|done].
    apply once_then_fireEach, once_refl.
  - injection Hstep as <-. apply (Hweak w); [|done].
    apply once_then_fireEach, once_refl.
  - injection Hstep as <-. apply (Hweak w); [|done]. apply send_once.
  - destruct (timers (env w) !! h) as [due|]; [|discriminate].
    destruct (due <=? now (env w)); [|discriminate].
    injection Hstep as <-. unfold flush_. cbn.
    destruct (pendingChanges_ (this w)) as [|e q] eqn:Hq; cbn; [by left|].
    right. eexists. split; [reflexivity|]. done.
  - injection Hstep as <-. by left.
Qed.

Lemma one_message_per_event_witness :
  step (Measure true (entryAt 200) (entryAt 200)) asked = Some answered /\
  (posted (env answered) = posted (env asked) \/
   exists m,
     posted (env answered) = posted (env asked) ++ [m] /\
     targets m = clientWindows_ (this answered) /\
     sentAt m = now (env answered) /\
     changes m <> []).
Proof.
  assert (H0 : step (Measure true (entryAt 200) (entryAt 200)) asked = Some answered)
    by (vm_compute; reflexivity).
  exact (conj H0
    (one_message_per_event (Measure true (entryAt 200) (entryAt 200)) asked answered H0)).
Defined.
